(** * Snake: a shallow embedding of [src/main.cpp] and its properties

    The game keeps a 10 x 10 matrix of cells, a snake (a list of positions,
    head first) and one fruit.  [snake_t] and [fruit_t] hold a reference to
    the one [game_field_t] that [game_loop] declares, so the embedding keeps
    a single record, [session], in which that matrix is shared by all
    operations.

    C++ [int] values are embedded as [Z]: every index the program computes
    stays between -1 and 10, far from the 32-bit limits.

    What comes from outside the program is an argument of the model: the
    samples of the random generator, the events SDL has queued and the
    time elapsed between two passes of the loop.  A read or write outside
    the matrix has no defined result, wherever it occurs. *)

From Stdlib Require Import ZArith Lia.
From stdpp Require Import base tactics option list list_numbers gmap.

Local Open Scope Z_scope.

(** ** Outcomes of an operation

    A C++ member function run on a state either returns, or leaves by a
    [throw], or indexes an array outside its extent (no behaviour is
    defined for that), or is still running when the inputs handed to the
    model (random samples, loop iterations) are used up. *)

Inductive outcome (S : Type) : Type :=
| Returned (s : S)
| Thrown (s : S)
| Undefined
| Starved.

Arguments Returned {S} s.
Arguments Thrown {S} s.
Arguments Undefined {S}.
Arguments Starved {S}.

Definition action (S : Type) : Type := S → outcome S.

Definition and_then {S} (c1 c2 : action S) : action S :=
  fun s =>
    match c1 s with
    | Returned s' => c2 s'
    | Thrown s' => Thrown s'
    | Undefined => Undefined
    | Starved => Starved
    end.

(** [try { body } catch(...) { handler }] *)
Definition try_catch {S} (body handler : action S) : action S :=
  fun s =>
    match body s with
    | Thrown s' => handler s'
    | other => other
    end.

Notation "c1 ;> c2" := (and_then c1 c2) (at level 62, right associativity).

(** ** globals *)

Module globals.
Definition max_wait_time_ms : Z := 160.
Definition field_width : Z := 10.
Definition field_height : Z := 10.
End globals.

(** ** position_t *)

Record position_t : Type := mk_position { pos_i : Z; pos_j : Z }.

#[global] Instance position_eq_dec : EqDecision position_t.
Proof. solve_decision. Defined.

(** ** game_field_t *)

Inductive cell_type : Type := EMPTY | SNAKE_HEAD | SNAKE_BODY | FRUIT | ERROR.

#[global] Instance cell_type_eq_dec : EqDecision cell_type.
Proof. solve_decision. Defined.

Definition width : Z := globals.field_width.
Definition height : Z := globals.field_height.

(** [matrix<cell_type, height, width>]: [height] rows of [width] cells. *)
Abbreviation game_field_t := (list (list cell_type)).

(** [game_field_t::game_field_t()] fills every row with [EMPTY]. *)
Definition empty_field : game_field_t :=
  replicate (Z.to_nat height) (replicate (Z.to_nat width) EMPTY).

(** [operator()(t_i, t_j) const] is [m_field[t_i][t_j]] with no check; an
    index outside either array has no defined result, which is [None]. *)
Definition field_read (f : game_field_t) (t_i t_j : Z) : option cell_type :=
  if decide (0 ≤ t_i ∧ 0 ≤ t_j)
  then row ← f !! Z.to_nat t_i; row !! Z.to_nat t_j
  else None.

(** [operator()(t_i, t_j)] used as the target of an assignment. *)
Definition field_write (f : game_field_t) (t_i t_j : Z) (c : cell_type)
  : option game_field_t :=
  match field_read f t_i t_j with
  | Some _ => Some (alter (<[Z.to_nat t_j := c]>) (Z.to_nat t_i) f)
  | None => None
  end.

(** [game_field_t::at], the checked accessor.  It compares the row index
    with [width] and the column index with [height], as the source does. *)
Definition field_at (f : game_field_t) (t_i t_j : Z) : option cell_type :=
  if decide (t_i >= width ∨ t_i < 0 ∨ t_j >= height ∨ t_j < 0)
  then Some ERROR
  else field_read f t_i t_j.

(** The grid bounds of the specification: [0,height) x [0,width). *)
Definition in_bounds (p : position_t) : Prop :=
  0 ≤ pos_i p < height ∧ 0 ≤ pos_j p < width.

#[global] Instance in_bounds_dec p : Decision (in_bounds p).
Proof. unfold in_bounds. apply _. Defined.

(** The extent of the two nested arrays. *)
Definition matrix_ok (f : game_field_t) : Prop :=
  length f = Z.to_nat height ∧ Forall (λ row, length row = Z.to_nat width) f.

(** ** direction_type and the scancodes the program names *)

Inductive direction_type : Type := UP | DOWN | LEFT | RIGHT.

#[global] Instance direction_eq_dec : EqDecision direction_type.
Proof. solve_decision. Defined.

(** Values of SDL's [SDL_Scancode] enumeration (USB keyboard usage ids). *)
Definition SDL_SCANCODE_G : Z := 10.
Definition SDL_SCANCODE_ESCAPE : Z := 41.
Definition SDL_SCANCODE_RIGHT : Z := 79.
Definition SDL_SCANCODE_LEFT : Z := 80.
Definition SDL_SCANCODE_DOWN : Z := 81.
Definition SDL_SCANCODE_UP : Z := 82.

Inductive SDL_Event : Type :=
| SDL_QUIT
| SDL_KEYDOWN (scancode : Z)
| SDL_KEYUP (scancode : Z)
| SDL_OTHER.

(** ** The session: every object [game_loop] works on *)

Record session : Type := mk_session {
  field : game_field_t;                  (* game_loop's [field] *)
  m_snake_positions : list position_t;   (* snake_t *)
  m_position : position_t;               (* fruit_t *)
  m_game_running : bool;                 (* game_logic_t *)
  m_score : Z;
  m_direction : direction_type;
  m_last_pressed_key : Z;                (* event_t *)
  m_quit : bool;
  waited_time : Z                        (* game_loop's local *)
}.

Definition set_field (f : game_field_t) (s : session) : session :=
  mk_session f (m_snake_positions s) (m_position s) (m_game_running s)
    (m_score s) (m_direction s) (m_last_pressed_key s) (m_quit s)
    (waited_time s).
Definition set_snake_positions (l : list position_t) (s : session) : session :=
  mk_session (field s) l (m_position s) (m_game_running s)
    (m_score s) (m_direction s) (m_last_pressed_key s) (m_quit s)
    (waited_time s).
Definition set_position (p : position_t) (s : session) : session :=
  mk_session (field s) (m_snake_positions s) p (m_game_running s)
    (m_score s) (m_direction s) (m_last_pressed_key s) (m_quit s)
    (waited_time s).
Definition set_game_running (b : bool) (s : session) : session :=
  mk_session (field s) (m_snake_positions s) (m_position s) b
    (m_score s) (m_direction s) (m_last_pressed_key s) (m_quit s)
    (waited_time s).
Definition set_score (n : Z) (s : session) : session :=
  mk_session (field s) (m_snake_positions s) (m_position s) (m_game_running s)
    n (m_direction s) (m_last_pressed_key s) (m_quit s) (waited_time s).
Definition set_direction (d : direction_type) (s : session) : session :=
  mk_session (field s) (m_snake_positions s) (m_position s) (m_game_running s)
    (m_score s) d (m_last_pressed_key s) (m_quit s) (waited_time s).
Definition set_last_pressed_key (k : Z) (s : session) : session :=
  mk_session (field s) (m_snake_positions s) (m_position s) (m_game_running s)
    (m_score s) (m_direction s) k (m_quit s) (waited_time s).
Definition set_quit (b : bool) (s : session) : session :=
  mk_session (field s) (m_snake_positions s) (m_position s) (m_game_running s)
    (m_score s) (m_direction s) (m_last_pressed_key s) b (waited_time s).
Definition set_waited_time (t : Z) (s : session) : session :=
  mk_session (field s) (m_snake_positions s) (m_position s) (m_game_running s)
    (m_score s) (m_direction s) (m_last_pressed_key s) (m_quit s) t.

(** [m_field(p.i, p.j) = c;] on the shared matrix. *)
Definition assign_cell (p : position_t) (c : cell_type) : action session :=
  fun s =>
    match field_write (field s) (pos_i p) (pos_j p) c with
    | Some f => Returned (set_field f s)
    | None => Undefined
    end.

(** ** snake_t *)

Module snake_t.

(** The loop of [update_field] over the positions after the first. *)
Fixpoint mark_body (l : list position_t) : action session :=
  match l with
  | [] => Returned
  | p :: rest => assign_cell p SNAKE_BODY ;> mark_body rest
  end.

Definition update_field : action session :=
  fun s =>
    match m_snake_positions s with
    | [] => Undefined
    | it :: rest => (assign_cell it SNAKE_HEAD ;> mark_body rest) s
    end.

Definition pop_back_snake_body : action session :=
  fun s =>
    match last (m_snake_positions s) with
    | None => Undefined
    | Some pos =>
        (assign_cell pos EMPTY ;>
         (fun s' => Returned
            (set_snake_positions (removelast (m_snake_positions s')) s'))) s
    end.

Definition is_space_for_snake (s : session) (t_pos : position_t)
  : option bool :=
  c ← field_read (field s) (pos_i t_pos) (pos_j t_pos);
  Some (bool_decide (c = EMPTY) || bool_decide (c = FRUIT)).

(** [snake_t::snake_t]: one position at the centre, then [update_field]. *)
Definition construct : action session :=
  (fun s => Returned
     (set_snake_positions
        (m_snake_positions s ++
           [mk_position (height / 2 - 1) (width / 2 - 1)]) s)) ;>
  update_field.

Definition get_length (s : session) : Z :=
  Z.of_nat (length (m_snake_positions s)).

Definition get_head_position (s : session) : option position_t :=
  head (m_snake_positions s).

(** The body shared by the four [lengthen_snake_*]: [at_edge] is the
    first [if] of the source function and [next] the position it
    computes from [head_pos]. *)
Definition lengthen_snake (at_edge : position_t → bool)
    (next : position_t → position_t) : action session :=
  fun s =>
    match head (m_snake_positions s) with
    | None => Undefined
    | Some head_pos =>
        if at_edge head_pos then Thrown s
        else
          match is_space_for_snake s (next head_pos) with
          | None => Undefined
          | Some false => Thrown s
          | Some true =>
              update_field
                (set_snake_positions
                   (next head_pos :: m_snake_positions s) s)
          end
    end.

Definition lengthen_snake_up : action session :=
  lengthen_snake (λ head_pos, bool_decide (pos_i head_pos ≤ 0))
    (λ head_pos, mk_position (pos_i head_pos - 1) (pos_j head_pos)).
Definition move_up : action session :=
  lengthen_snake_up ;> pop_back_snake_body.

Definition lengthen_snake_down : action session :=
  lengthen_snake (λ head_pos, bool_decide (pos_i head_pos >= height - 1))
    (λ head_pos, mk_position (pos_i head_pos + 1) (pos_j head_pos)).
Definition move_down : action session :=
  lengthen_snake_down ;> pop_back_snake_body.

Definition lengthen_snake_left : action session :=
  lengthen_snake (λ head_pos, bool_decide (pos_j head_pos ≤ 0))
    (λ head_pos, mk_position (pos_i head_pos) (pos_j head_pos - 1)).
Definition move_left : action session :=
  lengthen_snake_left ;> pop_back_snake_body.

Definition lengthen_snake_right : action session :=
  lengthen_snake (λ head_pos, bool_decide (pos_j head_pos >= width - 1))
    (λ head_pos, mk_position (pos_i head_pos) (pos_j head_pos + 1)).
Definition move_right : action session :=
  lengthen_snake_right ;> pop_back_snake_body.

End snake_t.

(** ** fruit_t *)

Module fruit_t.

(** [gen_new_position].  The generator is seeded afresh on every call,
    so each call consumes its own sequence of samples [dist(rng)], every
    one of them between 0 and [height - 1].  [samples] is the finite
    part of that sequence handed to the model: the first two samples
    are the initial [pos], each later pair is one pass of the [while]
    loop; when the list runs out with the loop still going the result is
    [Starved]. *)
Fixpoint gen_new_position (samples : list Z) (f : game_field_t)
  : outcome position_t :=
  match samples with
  | i :: j :: rest =>
      match field_read f i j with
      | None => Undefined
      | Some c =>
          if bool_decide (c ≠ EMPTY) then gen_new_position rest f
          else Returned (mk_position i j)
      end
  | _ => Starved
  end.

Definition update_field : action session :=
  fun s => assign_cell (m_position s) FRUIT s.

Definition new_position (samples : list Z) : action session :=
  fun s =>
    match gen_new_position samples (field s) with
    | Returned pos => update_field (set_position pos s)
    | Thrown _ => Thrown s
    | Undefined => Undefined
    | Starved => Starved
    end.

(** [fruit_t::fruit_t] has the body of [new_position]. *)
Definition construct (samples : list Z) : action session :=
  new_position samples.

End fruit_t.

(** ** event_t *)

Module event_t.

(** One pass of the [switch] in [poll_events].  [m_keys_held] is written
    here and read nowhere in the program; it is left out. *)
Definition handle_event (e : SDL_Event) (s : session) : session :=
  match e with
  | SDL_QUIT => set_quit true s
  | SDL_KEYDOWN scancode => set_last_pressed_key scancode s
  | SDL_KEYUP _ => s
  | SDL_OTHER => s
  end.

Definition poll_events (pending : list SDL_Event) (s : session) : session :=
  foldl (λ s' e, handle_event e s') s pending.

(** [get_key] returns the scancode converted to [char] (8 bits, signed). *)
Definition get_key (s : session) : Z :=
  (m_last_pressed_key s + 128) `mod` 256 - 128.

Definition quit (s : session) : bool := m_quit s.

End event_t.

(** ** game_logic_t *)

Module game_logic_t.

(** The [switch] of [is_fruit_in_direction] on a copy of the head. *)
Definition ahead (d : direction_type) (pos : position_t) : position_t :=
  match d with
  | UP => mk_position (pos_i pos - 1) (pos_j pos)
  | DOWN => mk_position (pos_i pos + 1) (pos_j pos)
  | LEFT => mk_position (pos_i pos) (pos_j pos - 1)
  | RIGHT => mk_position (pos_i pos) (pos_j pos + 1)
  end.

(** [is_fruit_in_direction] reads the matrix through the unchecked
    [operator()]: [None] when that read is outside the arrays. *)
Definition is_fruit_in_direction (s : session) : option bool :=
  pos ← snake_t.get_head_position s;
  c ← field_read (field s) (pos_i (ahead (m_direction s) pos))
                           (pos_j (ahead (m_direction s) pos));
  Some (bool_decide (c = FRUIT)).

Definition game_over : action session :=
  fun s => Returned (set_game_running false s).

(** [handle_movement].  Each [case] of its [switch] first calls
    [is_fruit_in_direction]; when that read falls outside the matrix the
    language defines no result, and neither does the model. *)
Definition handle_movement (samples : list Z) : action session :=
  fun s =>
    match is_fruit_in_direction s with
    | None => Undefined
    | Some fruit_ahead =>
        match m_direction s with
        | UP =>
            if fruit_ahead
            then try_catch
                   (snake_t.lengthen_snake_up ;> fruit_t.new_position samples)
                   game_over s
            else try_catch snake_t.move_up game_over s
        | DOWN =>
            if fruit_ahead
            then try_catch
                   (snake_t.lengthen_snake_down ;>
                    fruit_t.new_position samples)
                   game_over s
            else try_catch snake_t.move_down game_over s
        | LEFT =>
            if fruit_ahead
            then try_catch
                   (snake_t.lengthen_snake_left ;>
                    fruit_t.new_position samples)
                   game_over s
            else try_catch snake_t.move_left game_over s
        | RIGHT =>
            if fruit_ahead
            then try_catch
                   (snake_t.lengthen_snake_right ;>
                    fruit_t.new_position samples)
                   game_over s
            else try_catch snake_t.move_right game_over s
        end
    end.

(** The [switch(event.get_key())] of [game_loop]. *)
Definition handle_key (s : session) : session :=
  let key := event_t.get_key s in
  if decide (key = SDL_SCANCODE_UP) then
    if decide (m_direction s = DOWN) then s else set_direction UP s
  else if decide (key = SDL_SCANCODE_LEFT) then
    if decide (m_direction s = RIGHT) then s else set_direction LEFT s
  else if decide (key = SDL_SCANCODE_DOWN) then
    if decide (m_direction s = UP) then s else set_direction DOWN s
  else if decide (key = SDL_SCANCODE_RIGHT) then
    if decide (m_direction s = LEFT) then s else set_direction RIGHT s
  else if decide (key = SDL_SCANCODE_ESCAPE) then
    set_game_running false s
  else s.

(** What one pass of the [while] loop receives from outside: the time
    since the previous pass, the events SDL has queued and the samples a
    new fruit position would draw. *)
Record frame : Type := mk_frame {
  elapsed_time : Z;
  pending : list SDL_Event;
  samples : list Z
}.

(** The body of [if(waited_time >= globals::max_wait_time_ms)]: a tick. *)
Definition tick (fr : frame) : action session :=
  (fun s => handle_movement (samples fr) (handle_key s)) ;>
  (fun s => Returned (set_waited_time 0 s)).

(** The body of the [while] loop (drawing leaves the session as it is). *)
Definition loop_body (fr : frame) : action session :=
  fun s =>
    let s1 := set_waited_time (waited_time s + elapsed_time fr) s in
    let s2 := event_t.poll_events (pending fr) s1 in
    if decide (waited_time s2 >= globals.max_wait_time_ms)
    then tick fr s2
    else Returned s2.

(** [while(m_game_running && !event.quit())] over the passes supplied. *)
Fixpoint while_loop (frames : list frame) : action session :=
  fun s =>
    if m_game_running s && negb (event_t.quit s) then
      match frames with
      | [] => Starved
      | fr :: rest => (loop_body fr ;> while_loop rest) s
      end
    else Returned s.

(** The members' default initialisers, before any constructor body. *)
Definition fresh : session :=
  {| field := empty_field;
     m_snake_positions := [];
     m_position := mk_position 0 0;
     m_game_running := true;
     m_score := 0;
     m_direction := UP;
     m_last_pressed_key := SDL_SCANCODE_G;
     m_quit := false;
     waited_time := 0 |}.

(** The declarations at the top of [game_loop]. *)
Definition setup (fruit_samples : list Z) : outcome session :=
  (snake_t.construct ;> fruit_t.construct fruit_samples) fresh.

(** [m_score = snake.get_length();] after the loop. *)
Definition report_score : action session :=
  fun s => Returned (set_score (snake_t.get_length s) s).

Definition game_loop (fruit_samples : list Z) (frames : list frame)
  : outcome session :=
  (snake_t.construct ;> fruit_t.construct fruit_samples ;>
   while_loop frames ;> report_score) fresh.

Definition get_score (s : session) : Z := m_score s.

End game_logic_t.

Import game_logic_t.

(** Sessions [game_loop] can be in when it tests the loop condition. *)
Inductive reachable : session → Prop :=
| reach_setup fruit_samples s :
    setup fruit_samples = Returned s → reachable s
| reach_pass fr s s' :
    reachable s →
    m_game_running s = true → event_t.quit s = false →
    loop_body fr s = Returned s' →
    reachable s'.

Definition Running (s : session) : Prop :=
  m_game_running s = true ∧ event_t.quit s = false.

(** ** Invariants *)

Definition cell_of (f : game_field_t) (p : position_t) : option cell_type :=
  field_read f (pos_i p) (pos_j p).

(** Two positions are grid-adjacent: they differ by 1 in exactly one axis. *)
Definition adjacent (p q : position_t) : Prop :=
  Z.abs (pos_i p - pos_i q) + Z.abs (pos_j p - pos_j q) = 1.

#[global] Instance adjacent_dec p q : Decision (adjacent p q).
Proof. unfold adjacent. apply _. Defined.

Fixpoint chain (l : list position_t) : Prop :=
  match l with
  | p :: (q :: _) as rest => adjacent p q ∧ chain rest
  | _ => True
  end.

#[global] Instance chain_dec l : Decision (chain l).
Proof.
  induction l as [|p [|q l] IH]; simpl; [left; exact I | left; exact I |].
  apply and_dec; [apply _ | exact IH].
Defined.

(** The invariant of the position sequence. *)
Definition snake_inv (l : list position_t) : Prop :=
  (1 ≤ length l)%nat ∧ NoDup l ∧ Forall in_bounds l ∧ chain l.

#[global] Instance snake_inv_dec l : Decision (snake_inv l).
Proof. unfold snake_inv. apply _. Defined.

(** Every position of the snake is marked as snake on the matrix. *)
Definition snake_on_grid (s : session) : Prop :=
  matrix_ok (field s) ∧
  ∀ p, p ∈ m_snake_positions s →
       cell_of (field s) p = Some SNAKE_HEAD ∨
       cell_of (field s) p = Some SNAKE_BODY.

(** What the matrix holds at [p] for a given snake and fruit. *)
Definition expected (l : list position_t) (fruit : position_t)
    (p : position_t) : cell_type :=
  match l with
  | [] => if decide (p = fruit) then FRUIT else EMPTY
  | h :: t =>
      if decide (p = h) then SNAKE_HEAD
      else if decide (p ∈ t) then SNAKE_BODY
      else if decide (p = fruit) then FRUIT
      else EMPTY
  end.

(** The invariant of a session between two passes of the loop. *)
Definition session_inv (s : session) : Prop :=
  snake_inv (m_snake_positions s) ∧
  matrix_ok (field s) ∧
  in_bounds (m_position s) ∧
  (m_position s ∉ m_snake_positions s) ∧
  (∀ p, in_bounds p →
        cell_of (field s) p
        = Some (expected (m_snake_positions s) (m_position s) p)).

(** Number of cells of the matrix holding [c]. *)
Definition count_cells (c : cell_type) (f : game_field_t) : nat :=
  length (filter (λ x, x = c) (concat f)).

(** All positions of the grid, row by row. *)
Definition all_positions : list position_t :=
  i ← seqZ 0 height; j ← seqZ 0 width; [mk_position i j].

(** The four directions as one family. *)

Definition at_edge (d : direction_type) (head_pos : position_t) : bool :=
  match d with
  | UP => bool_decide (pos_i head_pos ≤ 0)
  | DOWN => bool_decide (pos_i head_pos >= height - 1)
  | LEFT => bool_decide (pos_j head_pos ≤ 0)
  | RIGHT => bool_decide (pos_j head_pos >= width - 1)
  end.

Definition lengthen (d : direction_type) : action session :=
  match d with
  | UP => snake_t.lengthen_snake_up
  | DOWN => snake_t.lengthen_snake_down
  | LEFT => snake_t.lengthen_snake_left
  | RIGHT => snake_t.lengthen_snake_right
  end.

Definition move (d : direction_type) : action session :=
  match d with
  | UP => snake_t.move_up
  | DOWN => snake_t.move_down
  | LEFT => snake_t.move_left
  | RIGHT => snake_t.move_right
  end.

(** The members of [game_logic_t] and [event_t] and the loop's timer. *)
Definition same_controls (s s' : session) : Prop :=
  m_game_running s' = m_game_running s ∧ m_score s' = m_score s ∧
  m_direction s' = m_direction s ∧
  m_last_pressed_key s' = m_last_pressed_key s ∧
  m_quit s' = m_quit s ∧ waited_time s' = waited_time s.

(** The matrix, the snake and the fruit. *)
Definition same_world (s s' : session) : Prop :=
  field s' = field s ∧ m_snake_positions s' = m_snake_positions s ∧
  m_position s' = m_position s.

Definition no_throw (a : action session) : Prop := ∀ s s', a s ≠ Thrown s'.

Definition keeps_controls (a : action session) : Prop :=
  ∀ s s', a s = Returned s' → same_controls s s'.

(** ** Vocabulary of the properties *)

(** The key that asks for the reverse of heading [h]. *)
Definition reverse_key (h : direction_type) : Z :=
  match h with
  | UP => SDL_SCANCODE_DOWN
  | DOWN => SDL_SCANCODE_UP
  | LEFT => SDL_SCANCODE_RIGHT
  | RIGHT => SDL_SCANCODE_LEFT
  end.

(** The matrix never holds the sentinel that [at] answers with. *)
Definition stores_no_error (f : game_field_t) : Prop :=
  ∀ p, cell_of f p ≠ Some ERROR.

(** The candidate head position is one the snake cannot enter. *)
Definition blocked (s : session) (cand : position_t) : Prop :=
  ¬ in_bounds cand ∨
  cell_of (field s) cand = Some SNAKE_HEAD ∨
  cell_of (field s) cand = Some SNAKE_BODY.

(** An endless sequence of samples and its first [n] elements. *)
Definition sample_stream : Type := nat → Z.

Definition samples_from (m n : nat) (rng : sample_stream) : list Z :=
  rng <$> seq m n.

Definition prefix (n : nat) (rng : sample_stream) : list Z :=
  samples_from 0 n rng.

(** Every sample lies in the range of [dist]. *)
Definition in_range (rng : sample_stream) : Prop :=
  ∀ k, 0 ≤ rng k ≤ height - 1.

(** The [k]-th pair of samples, as the position it proposes. *)
Definition proposal (rng : sample_stream) (k : nat) : position_t :=
  mk_position (rng (2 * k)%nat) (rng (2 * k + 1)%nat).


(** The session as the tick of pass [fr] finds it: time added, events
    polled. *)
Definition polled (fr : frame) (s : session) : session :=
  event_t.poll_events (pending fr)
    (set_waited_time (waited_time s + elapsed_time fr) s).

Definition tick_due (fr : frame) (s : session) : Prop :=
  waited_time (polled fr s) >= globals.max_wait_time_ms.

(** ** Concrete sessions used as examples *)

(** The session after the declarations of [game_loop], the fruit having
    been drawn at (3,4), right above the snake. *)
Definition start_session : session :=
  Eval vm_compute in
    match setup [3; 4] with Returned s => s | _ => fresh end.

(** A pass of the loop in which a tick is due and nothing else happens;
    a new fruit would be drawn at (7,7). *)
Definition quiet_frame : frame := mk_frame 160 [] [7; 7].

(** A pass in which Escape was pressed and a tick is due. *)
Definition escape_frame : frame :=
  mk_frame 160 [SDL_KEYDOWN SDL_SCANCODE_ESCAPE] [7; 7].

(** The passes [frames] made one after the other from [s], each with the
    loop condition true before it; [None] when the loop is left earlier
    or a pass does not return. *)
Fixpoint passes (frames : list frame) (s : session) : option session :=
  match frames with
  | [] => Some s
  | fr :: rest =>
      if m_game_running s && negb (event_t.quit s) then
        match loop_body fr s with
        | Returned s1 => passes rest s1
        | _ => None
        end
      else None
  end.

(** The session after the declarations, the fruit drawn at (7,7). *)
Definition far_fruit_session : session :=
  Eval vm_compute in
    match setup [7; 7] with Returned s => s | _ => fresh end.

(** The same session after the snake went up four times: its head is in
    the top row, heading up. *)
Definition top_row_session : session :=
  Eval vm_compute in
    match passes [quiet_frame; quiet_frame; quiet_frame; quiet_frame]
            far_fruit_session with
    | Some s => s
    | None => fresh
    end.

(** The matrix right after the snake was constructed: [SNAKE_HEAD] at
    (4,4) and [EMPTY] in the 99 other cells. *)
Definition snake_only_field : list (list cell_type) :=
  Eval vm_compute in
    match snake_t.construct fresh with
    | Returned s => field s
    | _ => empty_field
    end.


(** The pair of samples that starts at index [m] of the sequence. *)
Definition proposal_at (rng : sample_stream) (m : nat) : position_t :=
  mk_position (rng m) (rng (S m)).

(** ** More vocabulary: headings and keys *)

Definition opposite (d : direction_type) : direction_type :=
  match d with UP => DOWN | DOWN => UP | LEFT => RIGHT | RIGHT => LEFT end.

(** The heading an arrow key asks for. *)
Definition arrow_direction (key : Z) : option direction_type :=
  if decide (key = SDL_SCANCODE_UP) then Some UP
  else if decide (key = SDL_SCANCODE_LEFT) then Some LEFT
  else if decide (key = SDL_SCANCODE_DOWN) then Some DOWN
  else if decide (key = SDL_SCANCODE_RIGHT) then Some RIGHT
  else None.

(** The second position of the snake lies behind the head with respect
    to the stored heading. *)
Definition neck_behind (s : session) : Prop :=
  match m_snake_positions s with
  | h :: n :: _ => n = ahead (opposite (m_direction s)) h
  | _ => True
  end.

(** The scancode of the last [SDL_KEYDOWN] among [pending], if any. *)
Definition last_keydown (pending : list SDL_Event) : option Z :=
  last (omap (λ e, match e with SDL_KEYDOWN k => Some k | _ => None end)
          pending).

(** ** event_t with its table of held keys

    The sessions above leave [m_keys_held] out; here is [event_t] whole. *)

Module held_keys.

Record event_t : Type := mk_event {
  m_last_pressed_key : Z;
  m_quit : bool;
  m_keys_held : gmap Z bool
}.

(** The default member initialisers. *)
Definition initial : event_t := mk_event SDL_SCANCODE_G false ∅.

(** One pass of the [switch]: [case SDL_KEYDOWN] has no [break] and runs
    on into [case SDL_KEYUP]. *)
Definition handle_event (e : SDL_Event) (ev : event_t) : event_t :=
  match e with
  | SDL_QUIT => mk_event (m_last_pressed_key ev) true (m_keys_held ev)
  | SDL_KEYDOWN scancode =>
      mk_event scancode (m_quit ev)
        (<[scancode := false]> (<[scancode := true]> (m_keys_held ev)))
  | SDL_KEYUP scancode =>
      mk_event (m_last_pressed_key ev) (m_quit ev)
        (<[scancode := false]> (m_keys_held ev))
  | SDL_OTHER => ev
  end.

Definition poll_events (pending : list SDL_Event) (ev : event_t) : event_t :=
  foldl (λ ev' e, handle_event e ev') ev pending.

Definition is_key_held (t_key : Z) (ev : event_t) : bool :=
  match m_keys_held ev !! t_key with
  | None => false
  | Some held => held
  end.

End held_keys.

(** ** window_t and drawing

    What the program shows is the sequence of calls it makes on the SDL
    renderer. *)

Record SDL_Rect : Type := mk_rect {
  rect_x : Z; rect_y : Z; rect_w : Z; rect_h : Z
}.

Inductive SDL_call : Type :=
| SDL_SetRenderDrawColor (r g b a : Z)
| SDL_RenderClear
| SDL_RenderFillRect (rect : SDL_Rect)
| SDL_RenderPresent.

Module window_t.

Record window : Type := mk_window { m_width : Z; m_height : Z }.

Definition clear_screen : list SDL_call :=
  [SDL_SetRenderDrawColor 0 0 0 255; SDL_RenderClear].

(** The rectangle [window_t::draw] fills for [t_pos]; [/] on [int] is
    the truncating quotient. *)
Definition cell_rect (win : window) (t_pos : position_t) : SDL_Rect :=
  {| rect_x := pos_j t_pos * (m_width win ÷ globals.field_width);
     rect_y := pos_i t_pos * (m_height win ÷ globals.field_height);
     rect_h := m_height win ÷ globals.field_height;
     rect_w := m_width win ÷ globals.field_width |}.

(** The conversion of an [int] argument to the [Uint8] parameter of
    [SDL_SetRenderDrawColor]. *)
Definition to_Uint8 (x : Z) : Z := x `mod` 256.

Definition draw (win : window) (t_pos : position_t) (t_r t_g t_b t_a : Z)
  : list SDL_call :=
  [SDL_SetRenderDrawColor (to_Uint8 t_r) (to_Uint8 t_g) (to_Uint8 t_b)
     (to_Uint8 t_a);
   SDL_RenderFillRect (cell_rect win t_pos)].

Definition update : list SDL_call := [SDL_RenderPresent].

End window_t.

Module render.

(** The [switch(cell)] of [game_field_t::draw]. *)
Definition draw_cell (win : window_t.window) (i j : Z) (cell : cell_type)
  : list SDL_call :=
  match cell with
  | SNAKE_HEAD => window_t.draw win (mk_position i j) 34 120 16 255
  | SNAKE_BODY => window_t.draw win (mk_position i j) 34 232 16 255
  | FRUIT => window_t.draw win (mk_position i j) 244 13 45 255
  | _ => []
  end.

(** The inner loop, with its counter [j]. *)
Fixpoint draw_line (win : window_t.window) (i j : Z) (line : list cell_type)
  : list SDL_call :=
  match line with
  | [] => []
  | cell :: rest => draw_cell win i j cell ++ draw_line win i (j + 1) rest
  end.

(** The outer loop, with its counter [i]. *)
Fixpoint draw_lines (win : window_t.window) (i : Z)
    (lines : list (list cell_type)) : list SDL_call :=
  match lines with
  | [] => []
  | line :: rest => draw_line win i 0 line ++ draw_lines win (i + 1) rest
  end.

(** [game_field_t::draw]. *)
Definition draw (win : window_t.window) (f : game_field_t) : list SDL_call :=
  window_t.clear_screen ++ draw_lines win 0 f.

(** The rectangles filled by a sequence of calls. *)
Definition filled (calls : list SDL_call) : list SDL_Rect :=
  omap (λ c, match c with SDL_RenderFillRect r => Some r | _ => None end)
    calls.

(** What is drawn for the cell at [p] of matrix [f]. *)
Definition paint (win : window_t.window) (f : game_field_t) (p : position_t)
  : list SDL_call :=
  match cell_of f p with
  | Some cell => draw_cell win (pos_i p) (pos_j p) cell
  | None => []
  end.

(** Two rectangles share no pixel. *)
Definition disjoint_rects (r1 r2 : SDL_Rect) : Prop :=
  rect_x r1 + rect_w r1 ≤ rect_x r2 ∨ rect_x r2 + rect_w r2 ≤ rect_x r1 ∨
  rect_y r1 + rect_h r1 ≤ rect_y r2 ∨ rect_y r2 + rect_h r2 ≤ rect_y r1.

(** A rectangle lies inside the window. *)
Definition inside_window (win : window_t.window) (r : SDL_Rect) : Prop :=
  0 ≤ rect_x r ∧ rect_x r + rect_w r ≤ window_t.m_width win ∧
  0 ≤ rect_y r ∧ rect_y r + rect_h r ≤ window_t.m_height win.

End render.

(** ** main *)

Module program.

(** What one turn of the loop of [main] receives: the inputs of the
    session played and the character read from [std::cin] afterwards
    (its code). *)
Record round : Type := mk_round {
  fruit_samples : list Z;
  frames : list frame;
  answer : Z
}.

(** ['y'] and ['Y']. *)
Definition is_yes (ch : Z) : bool :=
  bool_decide (ch = 121) || bool_decide (ch = 89).

(** The loop of [main]: the scores written to [std::cout], in order.
    [Starved] when the rounds supplied run out with [replay] still
    true. *)
Fixpoint main (rounds : list round) : outcome (list Z) :=
  match rounds with
  | [] => Starved
  | r :: rest =>
      match game_loop (fruit_samples r) (frames r) with
      | Returned game =>
          if is_yes (answer r) then
            match main rest with
            | Returned scores => Returned (get_score game :: scores)
            | Thrown scores => Thrown (get_score game :: scores)
            | Undefined => Undefined
            | Starved => Starved
            end
          else Returned [get_score game]
      | Thrown _ => Thrown []
      | Undefined => Undefined
      | Starved => Starved
      end
  end.

End program.

(** The session after [start_session] ate the fruit above it: the snake
    is at (3,4), (4,4), heading up, and the fruit at (7,7). *)
Definition grown_session : session :=
  Eval vm_compute in
    match passes [quiet_frame] start_session with
    | Some s => s
    | None => fresh
    end.

(** A pass in which [key] was pressed, a tick is due, and a new fruit
    would be drawn at ([i],[j]). *)
Definition feed (key i j : Z) : frame :=
  mk_frame 160 [SDL_KEYDOWN key] [i; j].

(** A game in which every fruit appears right ahead of the snake on a
    spiral out of the centre: 98 ticks, each eating a fruit. *)
Definition spiral_frames : list frame :=
  [
   feed 79 5 5; feed 81 5 4; feed 80 5 3; feed 80 4 3; feed 82 3 3;
   feed 82 3 4; feed 79 3 5; feed 79 3 6; feed 79 4 6; feed 81 5 6;
   feed 81 6 6; feed 81 6 5; feed 80 6 4; feed 80 6 3; feed 80 6 2;
   feed 80 5 2; feed 82 4 2; feed 82 3 2; feed 82 2 2; feed 82 2 3;
   feed 79 2 4; feed 79 2 5; feed 79 2 6; feed 79 2 7; feed 79 3 7;
   feed 81 4 7; feed 81 5 7; feed 81 6 7; feed 81 7 7; feed 81 7 6;
   feed 80 7 5; feed 80 7 4; feed 80 7 3; feed 80 7 2; feed 80 7 1;
   feed 80 6 1; feed 82 5 1; feed 82 4 1; feed 82 3 1; feed 82 2 1;
   feed 82 1 1; feed 82 1 2; feed 79 1 3; feed 79 1 4; feed 79 1 5;
   feed 79 1 6; feed 79 1 7; feed 79 1 8; feed 79 2 8; feed 81 3 8;
   feed 81 4 8; feed 81 5 8; feed 81 6 8; feed 81 7 8; feed 81 8 8;
   feed 81 8 7; feed 80 8 6; feed 80 8 5; feed 80 8 4; feed 80 8 3;
   feed 80 8 2; feed 80 8 1; feed 80 8 0; feed 80 7 0; feed 82 6 0;
   feed 82 5 0; feed 82 4 0; feed 82 3 0; feed 82 2 0; feed 82 1 0;
   feed 82 0 0; feed 82 0 1; feed 79 0 2; feed 79 0 3; feed 79 0 4;
   feed 79 0 5; feed 79 0 6; feed 79 0 7; feed 79 0 8; feed 79 0 9;
   feed 79 1 9; feed 81 2 9; feed 81 3 9; feed 81 4 9; feed 81 5 9;
   feed 81 6 9; feed 81 7 9; feed 81 8 9; feed 81 9 9; feed 81 9 8;
   feed 80 9 7; feed 80 9 6; feed 80 9 5; feed 80 9 4; feed 80 9 3;
   feed 80 9 2; feed 80 9 1; feed 80 9 0
  ].

(** The session that game ends in: the snake holds 99 cells, its head is
    at (9,1), and the fruit lies in the last free cell, (9,0). *)
Definition full_board_session : session :=
  Eval vm_compute in
    match setup [4; 5] with
    | Returned s0 =>
        match passes spiral_frames s0 with Some s => s | None => fresh end
    | _ => fresh
    end.

(** The session after the first three ticks of that game: the snake
    holds the four cells in the centre, (5,4), (5,5), (4,5), (4,4), and
    heads left. *)
Definition coiled_session : session :=
  Eval vm_compute in
    match setup [4; 5] with
    | Returned s0 =>
        match passes (take 3 spiral_frames) s0 with
        | Some s => s
        | None => fresh
        end
    | _ => fresh
    end.

#[global] Instance SDL_Event_eq_dec : EqDecision SDL_Event.
Proof. solve_decision. Defined.

(** ** The matrix *)

Lemma field_read_Some f i j c :
  field_read f i j = Some c →
  0 ≤ i ∧ 0 ≤ j ∧
  ∃ row, f !! Z.to_nat i = Some row ∧ row !! Z.to_nat j = Some c.
Proof.
  unfold field_read. case_decide as Hd; [|done].
  destruct (f !! Z.to_nat i) as [row|] eqn:Hrow; simpl; [|done].
  intros Hc. destruct Hd. eauto.
Qed.

Lemma field_read_in_bounds f p :
  matrix_ok f → (is_Some (cell_of f p) ↔ in_bounds p).
Proof.
  intros [Hlen Hrows]. unfold cell_of, in_bounds. split.
  - intros [c Hc]. apply field_read_Some in Hc as (Hi & Hj & row & Hr & Hc).
    pose proof (Forall_lookup_1 _ _ _ _ Hrows Hr) as Hw. simpl in Hw.
    apply lookup_lt_Some in Hr. apply lookup_lt_Some in Hc. lia.
  - intros [Hi Hj]. unfold field_read. rewrite decide_True by lia.
    destruct (lookup_lt_is_Some_2 f (Z.to_nat (pos_i p))) as [row Hr];
      [lia|].
    rewrite Hr. simpl.
    pose proof (Forall_lookup_1 _ _ _ _ Hrows Hr) as Hw. simpl in Hw.
    apply lookup_lt_is_Some_2. lia.
Qed.

Lemma field_write_matrix_ok f i j c f' :
  matrix_ok f → field_write f i j c = Some f' → matrix_ok f'.
Proof.
  intros [Hlen Hrows]. unfold field_write.
  destruct (field_read f i j); [|done]. intros [= <-]. split.
  - by rewrite length_alter.
  - apply Forall_alter; [done|]. intros row _ Hw. by rewrite length_insert.
Qed.

Lemma field_read_write f i j c f' p :
  field_write f i j c = Some f' →
  cell_of f' p = if decide (p = mk_position i j) then Some c else cell_of f p.
Proof.
  unfold field_write. destruct (field_read f i j) as [c0|] eqn:Hr; [|done].
  intros [= <-]. apply field_read_Some in Hr as (Hi & Hj & row & Hrow & Hc).
  destruct p as [i' j']. unfold cell_of, field_read. simpl.
  destruct (decide (0 ≤ i' ∧ 0 ≤ j')) as [[Hi' Hj']|Hn].
  - rewrite list_lookup_alter.
    destruct (decide (Z.to_nat i = Z.to_nat i')) as [Hii|Hii].
    + assert (i = i') by lia. subst i'. rewrite Hrow. simpl.
      rewrite list_lookup_insert.
      destruct (decide (Z.to_nat j = Z.to_nat j')) as [Hjj|Hjj].
      * assert (j = j') by lia. subst j'.
        apply lookup_lt_Some in Hc.
        rewrite decide_True by (split; [done|lia]).
        by rewrite decide_True.
      * rewrite decide_False by (intros [? _]; done).
        rewrite decide_False; [done|]. intros [= ?]. lia.
    + rewrite decide_False; [done|]. intros [= ? ?]. lia.
  - rewrite decide_False; [done|]. intros [= ? ?]. lia.
Qed.

Lemma field_write_is_Some f p c :
  matrix_ok f → in_bounds p →
  is_Some (field_write f (pos_i p) (pos_j p) c).
Proof.
  intros Hok Hp. apply (field_read_in_bounds f p Hok) in Hp as [c0 Hc0].
  unfold field_write. unfold cell_of in Hc0. rewrite Hc0. eauto.
Qed.

(** ** Writes of the snake on the matrix *)

Lemma assign_cell_spec s p c :
  matrix_ok (field s) → in_bounds p →
  ∃ f', assign_cell p c s = Returned (set_field f' s) ∧ matrix_ok f' ∧
        ∀ q, cell_of f' q
             = if decide (q = p) then Some c else cell_of (field s) q.
Proof.
  intros Hok Hp. unfold assign_cell.
  destruct (field_write_is_Some (field s) p c Hok Hp) as [f' Hw].
  rewrite Hw. exists f'. split; [done|]. split.
  - eapply field_write_matrix_ok; eauto.
  - intros q. rewrite (field_read_write _ _ _ _ _ q Hw). by destruct p.
Qed.

Lemma mark_body_spec l : ∀ s,
  matrix_ok (field s) → Forall in_bounds l →
  ∃ f', snake_t.mark_body l s = Returned (set_field f' s) ∧ matrix_ok f' ∧
        ∀ q, cell_of f' q
             = if decide (q ∈ l) then Some SNAKE_BODY else cell_of (field s) q.
Proof.
  induction l as [|p l IH]; intros s Hok Hl.
  - exists (field s). split; [by destruct s|]. split; [done|].
    intros q. rewrite decide_False; [done|]. apply not_elem_of_nil.
  - apply Forall_cons in Hl as [Hp Hl].
    destruct (assign_cell_spec s p SNAKE_BODY Hok Hp) as (f1 & E1 & Hok1 & R1).
    destruct (IH (set_field f1 s) Hok1 Hl) as (f2 & E2 & Hok2 & R2).
    exists f2. simpl. unfold and_then. rewrite E1, E2.
    split; [done|]. split; [done|].
    intros q. rewrite R2. simpl. rewrite R1.
    destruct (decide (q ∈ l)) as [Hin|Hin].
    + rewrite decide_True; [done|]. rewrite elem_of_cons. by right.
    + destruct (decide (q = p)) as [->|Hne].
      * rewrite decide_True; [done|]. rewrite elem_of_cons. by left.
      * rewrite decide_False; [done|]. rewrite elem_of_cons. tauto.
Qed.

Lemma update_field_spec s h t :
  m_snake_positions s = h :: t →
  matrix_ok (field s) → Forall in_bounds (h :: t) →
  ∃ f', snake_t.update_field s = Returned (set_field f' s) ∧ matrix_ok f' ∧
        ∀ q, cell_of f' q
             = if decide (q ∈ t) then Some SNAKE_BODY
               else if decide (q = h) then Some SNAKE_HEAD
               else cell_of (field s) q.
Proof.
  intros Hs Hok Hl. apply Forall_cons in Hl as [Hh Ht].
  destruct (assign_cell_spec s h SNAKE_HEAD Hok Hh) as (f1 & E1 & Hok1 & R1).
  destruct (mark_body_spec t (set_field f1 s) Hok1 Ht) as (f2 & E2 & Hok2 & R2).
  exists f2. unfold snake_t.update_field. rewrite Hs. unfold and_then.
  rewrite E1, E2. split; [done|]. split; [done|].
  intros q. rewrite R2. simpl. by rewrite R1.
Qed.

Lemma pop_back_snake_body_spec s l p :
  m_snake_positions s = l ++ [p] →
  matrix_ok (field s) → in_bounds p →
  ∃ f', snake_t.pop_back_snake_body s
        = Returned (set_snake_positions l (set_field f' s)) ∧
        matrix_ok f' ∧
        ∀ q, cell_of f' q
             = if decide (q = p) then Some EMPTY else cell_of (field s) q.
Proof.
  intros Hs Hok Hp.
  destruct (assign_cell_spec s p EMPTY Hok Hp) as (f1 & E1 & Hok1 & R1).
  exists f1. unfold snake_t.pop_back_snake_body. rewrite Hs, last_snoc.
  unfold and_then. rewrite E1. simpl. rewrite Hs, removelast_last.
  done.
Qed.

(** ** One lengthening step, for any of the four directions *)

Section lengthen.
Variable at_edge : position_t → bool.
Variable next : position_t → position_t.
Hypothesis edge_inside :
  ∀ h, in_bounds h → at_edge h = false → in_bounds (next h).
Hypothesis edge_outside :
  ∀ h, in_bounds h → at_edge h = true → ¬ in_bounds (next h).

Lemma lengthen_snake_cases s h t :
  m_snake_positions s = h :: t →
  matrix_ok (field s) → Forall in_bounds (h :: t) →
  (¬ in_bounds (next h) ∧
   snake_t.lengthen_snake at_edge next s = Thrown s) ∨
  (in_bounds (next h) ∧
   (∃ c, cell_of (field s) (next h) = Some c ∧ c ≠ EMPTY ∧ c ≠ FRUIT) ∧
   snake_t.lengthen_snake at_edge next s = Thrown s) ∨
  (in_bounds (next h) ∧
   (∃ c, cell_of (field s) (next h) = Some c ∧ (c = EMPTY ∨ c = FRUIT)) ∧
   ∃ f', snake_t.lengthen_snake at_edge next s
         = Returned (set_field f' (set_snake_positions (next h :: h :: t) s)) ∧
         matrix_ok f' ∧
         ∀ q, cell_of f' q
              = if decide (q ∈ h :: t) then Some SNAKE_BODY
                else if decide (q = next h) then Some SNAKE_HEAD
                else cell_of (field s) q).
Proof.
  intros Hs Hok Hl. pose proof Hl as Hl'.
  apply Forall_cons in Hl' as [Hh _].
  unfold snake_t.lengthen_snake. rewrite Hs. simpl.
  destruct (at_edge h) eqn:He.
  { left. split; [by apply edge_outside|done]. }
  right. pose proof (edge_inside h Hh He) as Hn.
  destruct (proj2 (field_read_in_bounds (field s) (next h) Hok) Hn)
    as [c Hc].
  unfold snake_t.is_space_for_snake. unfold cell_of in Hc. rewrite Hc.
  simpl. destruct c; simpl.
  2,3,5: (left; split; [done|]; split; [|done];
          eexists; split; [exact Hc|done]).
  all: right; split; [done|]; split;
    [eexists; split; [exact Hc|]; auto|].
  all: destruct (update_field_spec
                   (set_snake_positions (next h :: h :: t) s)
                   (next h) (h :: t) eq_refl Hok)
         as (f' & E & Hok' & R); [by apply Forall_cons|];
       exists f'; split; [exact E|]; split; [done|exact R].
Qed.
End lengthen.

Lemma lengthen_unfold d :
  lengthen d = snake_t.lengthen_snake (at_edge d) (ahead d).
Proof. by destruct d. Qed.

Lemma move_unfold d : move d = (lengthen d ;> snake_t.pop_back_snake_body).
Proof. by destruct d. Qed.

Lemma handle_movement_unfold samples s :
  handle_movement samples s
  = match is_fruit_in_direction s with
    | None => Undefined
    | Some true =>
        try_catch (lengthen (m_direction s) ;> fruit_t.new_position samples)
          game_over s
    | Some false => try_catch (move (m_direction s)) game_over s
    end.
Proof.
  unfold handle_movement.
  destruct (is_fruit_in_direction s) as [[|]|]; by destruct (m_direction s).
Qed.

Lemma at_edge_inside d h :
  in_bounds h → at_edge d h = false → in_bounds (ahead d h).
Proof.
  unfold in_bounds.
  destruct d; simpl; intros Hh He; apply bool_decide_eq_false in He;
    unfold height, width, globals.field_height, globals.field_width in *; lia.
Qed.

Lemma at_edge_outside d h :
  in_bounds h → at_edge d h = true → ¬ in_bounds (ahead d h).
Proof.
  unfold in_bounds.
  destruct d; simpl; intros Hh He; apply bool_decide_eq_true in He;
    unfold height, width, globals.field_height, globals.field_width in *; lia.
Qed.

Lemma ahead_adjacent d h : adjacent (ahead d h) h.
Proof. unfold adjacent. destruct d; simpl; lia. Qed.

(** ** What the operations leave alone *)

Lemma same_controls_refl s : same_controls s s.
Proof. by repeat split. Qed.

Lemma same_controls_trans s1 s2 s3 :
  same_controls s1 s2 → same_controls s2 s3 → same_controls s1 s3.
Proof. unfold same_controls. intros ??. intuition congruence. Qed.

Lemma and_then_Returned (a b : action session) s s' :
  (a ;> b) s = Returned s' ↔ ∃ s1, a s = Returned s1 ∧ b s1 = Returned s'.
Proof.
  unfold and_then. destruct (a s) as [s1| | |]; split;
    try done; try (intros (? & ? & ?); done).
  - eauto.
  - intros (s2 & [= ->] & Hb). done.
Qed.

Lemma and_then_no_throw (a b : action session) :
  no_throw a → no_throw b → no_throw (a ;> b).
Proof.
  intros Ha Hb s s'. unfold and_then.
  destruct (a s) eqn:E; [apply Hb | by apply Ha in E | done | done].
Qed.

Lemma and_then_keeps_controls (a b : action session) :
  keeps_controls a → keeps_controls b → keeps_controls (a ;> b).
Proof.
  intros Ha Hb s s' (s1 & E1 & E2)%and_then_Returned.
  eapply same_controls_trans; eauto.
Qed.

Lemma assign_cell_no_throw p c : no_throw (assign_cell p c).
Proof. intros s s'. unfold assign_cell. by destruct field_write. Qed.

Lemma assign_cell_keeps_controls p c : keeps_controls (assign_cell p c).
Proof.
  intros s s'. unfold assign_cell. destruct field_write; [|done].
  intros [= <-]. by repeat split.
Qed.

Lemma mark_body_no_throw l : no_throw (snake_t.mark_body l).
Proof.
  induction l as [|p l IH]; [done|]. simpl.
  apply and_then_no_throw; [apply assign_cell_no_throw | done].
Qed.

Lemma mark_body_keeps_controls l : keeps_controls (snake_t.mark_body l).
Proof.
  induction l as [|p l IH]; simpl.
  - intros s s' [= <-]. apply same_controls_refl.
  - apply and_then_keeps_controls; [apply assign_cell_keeps_controls | done].
Qed.

Lemma snake_update_field_no_throw : no_throw snake_t.update_field.
Proof.
  intros s s'. unfold snake_t.update_field.
  destruct (m_snake_positions s); [done|].
  apply and_then_no_throw;
    [apply assign_cell_no_throw | apply mark_body_no_throw].
Qed.

Lemma snake_update_field_keeps_controls : keeps_controls snake_t.update_field.
Proof.
  intros s s'. unfold snake_t.update_field.
  destruct (m_snake_positions s); [done|].
  apply and_then_keeps_controls;
    [apply assign_cell_keeps_controls | apply mark_body_keeps_controls].
Qed.

Lemma pop_back_no_throw : no_throw snake_t.pop_back_snake_body.
Proof.
  intros s s'. unfold snake_t.pop_back_snake_body.
  destruct (last (m_snake_positions s)); [|done].
  apply and_then_no_throw; [apply assign_cell_no_throw | done].
Qed.

Lemma pop_back_keeps_controls : keeps_controls snake_t.pop_back_snake_body.
Proof.
  intros s s'. unfold snake_t.pop_back_snake_body.
  destruct (last (m_snake_positions s)); [|done].
  apply and_then_keeps_controls; [apply assign_cell_keeps_controls |].
  intros s1 s2 [= <-]. by repeat split.
Qed.

(** A [throw] of a lengthening step happens before any write. *)
Lemma lengthen_Thrown_inv d s s' : lengthen d s = Thrown s' → s' = s.
Proof.
  rewrite lengthen_unfold. unfold snake_t.lengthen_snake.
  destruct (head (m_snake_positions s)); [|done].
  destruct (at_edge d p); [by intros [= <-]|].
  destruct (snake_t.is_space_for_snake s (ahead d p)) as [[|]|];
    [|by intros [= <-]|done].
  intros E. by apply snake_update_field_no_throw in E.
Qed.

Lemma lengthen_keeps_controls d : keeps_controls (lengthen d).
Proof.
  intros s s'. rewrite lengthen_unfold. unfold snake_t.lengthen_snake.
  destruct (head (m_snake_positions s)); [|done].
  destruct (at_edge d p); [done|].
  destruct (snake_t.is_space_for_snake s (ahead d p)) as [[|]|]; [|done..].
  intros E. apply snake_update_field_keeps_controls in E. exact E.
Qed.

Lemma move_Thrown_inv d s s' :
  move d s = Thrown s' → s' = s ∧ lengthen d s = Thrown s.
Proof.
  rewrite move_unfold. unfold and_then.
  destruct (lengthen d s) as [s1|s1| |] eqn:E; try done.
  - intros E'. by apply pop_back_no_throw in E'.
  - intros [= <-]. apply lengthen_Thrown_inv in E as ->. done.
Qed.

Lemma move_keeps_controls d : keeps_controls (move d).
Proof.
  rewrite move_unfold. apply and_then_keeps_controls;
    [apply lengthen_keeps_controls | apply pop_back_keeps_controls].
Qed.

Lemma new_position_keeps_controls samples :
  keeps_controls (fruit_t.new_position samples).
Proof.
  intros s s'. unfold fruit_t.new_position.
  destruct (fruit_t.gen_new_position samples (field s)); try done.
  intros E. apply assign_cell_keeps_controls in E. exact E.
Qed.

(** ** The snake invariant under lengthening and popping *)

Lemma chain_app_l l1 l2 : chain (l1 ++ l2) → chain l1.
Proof.
  induction l1 as [|p [|q l1] IH]; simpl; try done.
  intros [Hpq Hc]. split; [done|]. by apply IH.
Qed.

Lemma snake_inv_cons n h t :
  snake_inv (h :: t) → n ∉ h :: t → in_bounds n → adjacent n h →
  snake_inv (n :: h :: t).
Proof.
  intros (Hlen & Hnd & Hb & Hc) Hn Hnb Hadj. repeat split.
  - simpl. lia.
  - by apply NoDup_cons.
  - by apply Forall_cons.
  - done.
  - done.
Qed.

Lemma snake_inv_prefix l p : snake_inv (l ++ [p]) → l ≠ [] → snake_inv l.
Proof.
  intros (Hlen & Hnd & Hb & Hc) Hl. repeat split.
  - destruct l; [done|]. simpl. lia.
  - by apply NoDup_app in Hnd as (? & _ & _).
  - by apply Forall_app in Hb as [? _].
  - by apply chain_app_l in Hc.
Qed.

Lemma snake_inv_head l :
  snake_inv l → ∃ h t, l = h :: t ∧ in_bounds h ∧ h ∉ t.
Proof.
  intros (Hlen & Hnd & Hb & _). destruct l as [|h t]; [simpl in Hlen; lia|].
  exists h, t. apply NoDup_cons in Hnd as [? _].
  apply Forall_cons in Hb as [? _]. done.
Qed.

Lemma lengthen_cases d s h t :
  m_snake_positions s = h :: t →
  matrix_ok (field s) → Forall in_bounds (h :: t) →
  (¬ in_bounds (ahead d h) ∧ lengthen d s = Thrown s) ∨
  (in_bounds (ahead d h) ∧
   (∃ c, cell_of (field s) (ahead d h) = Some c ∧ c ≠ EMPTY ∧ c ≠ FRUIT) ∧
   lengthen d s = Thrown s) ∨
  (in_bounds (ahead d h) ∧
   (∃ c, cell_of (field s) (ahead d h) = Some c ∧ (c = EMPTY ∨ c = FRUIT)) ∧
   ∃ f', lengthen d s
         = Returned
             (set_field f' (set_snake_positions (ahead d h :: h :: t) s)) ∧
         matrix_ok f' ∧
         ∀ q, cell_of f' q
              = if decide (q ∈ h :: t) then Some SNAKE_BODY
                else if decide (q = ahead d h) then Some SNAKE_HEAD
                else cell_of (field s) q).
Proof.
  rewrite lengthen_unfold. apply lengthen_snake_cases.
  - apply at_edge_inside.
  - apply at_edge_outside.
Qed.

Lemma lengthen_preserves d s s' :
  snake_inv (m_snake_positions s) → snake_on_grid s →
  lengthen d s = Returned s' →
  ∃ h, head (m_snake_positions s) = Some h ∧
       m_snake_positions s' = ahead d h :: m_snake_positions s ∧
       m_position s' = m_position s ∧
       snake_inv (m_snake_positions s') ∧ snake_on_grid s' ∧
       (∃ c, cell_of (field s) (ahead d h) = Some c ∧ (c = EMPTY ∨ c = FRUIT)) ∧
       (ahead d h ∉ m_snake_positions s) ∧
       ∀ q, cell_of (field s') q
            = if decide (q ∈ m_snake_positions s) then Some SNAKE_BODY
              else if decide (q = ahead d h) then Some SNAKE_HEAD
              else cell_of (field s) q.
Proof.
  intros Hinv [Hok Hmarked] E.
  destruct (snake_inv_head _ Hinv) as (h & t & Hs & Hh & Hht).
  pose proof Hinv as (_ & _ & Hb & _). rewrite Hs in Hb.
  destruct (lengthen_cases d s h t Hs Hok Hb)
    as [[_ E']|[(_ & _ & E')|(Hn & (c & Hc & Hcc) & f' & E' & Hok' & R)]];
    [congruence..|].
  rewrite E in E'. injection E' as ->. exists h. simpl.
  assert (ahead d h ∉ h :: t) as Hfresh.
  { rewrite <- Hs. intros Hin. apply Hmarked in Hin as [Hin|Hin];
      rewrite Hc in Hin; destruct Hcc; congruence. }
  rewrite Hs. split; [done|]. split; [done|]. split; [done|].
  split. { apply snake_inv_cons; auto using ahead_adjacent. by rewrite <- Hs. }
  split.
  { split; [done|]. simpl. intros p Hp. rewrite R.
    destruct (decide (p ∈ h :: t)); [by right|].
    apply elem_of_cons in Hp as [->|?]; [|done].
    rewrite decide_True by done. by left. }
  split; [eauto|]. split; done.
Qed.

Lemma pop_back_preserves s s' :
  snake_inv (m_snake_positions s) → (2 ≤ length (m_snake_positions s))%nat →
  snake_on_grid s →
  snake_t.pop_back_snake_body s = Returned s' →
  ∃ p, last (m_snake_positions s) = Some p ∧
       m_snake_positions s' = removelast (m_snake_positions s) ∧
       m_position s' = m_position s ∧
       snake_inv (m_snake_positions s') ∧ snake_on_grid s' ∧
       ∀ q, cell_of (field s') q
            = if decide (q = p) then Some EMPTY else cell_of (field s) q.
Proof.
  intros Hinv Hlen [Hok Hmarked] E.
  destruct (exists_last (l:=m_snake_positions s)) as (l & p & Hs).
  { intros H0. rewrite H0 in Hlen. simpl in Hlen. lia. }
  pose proof Hinv as (_ & Hnd & Hb & _). rewrite Hs in Hnd, Hb.
  apply Forall_app in Hb as [Hbl Hbp]. apply Forall_cons in Hbp as [Hbp _].
  destruct (pop_back_snake_body_spec s l p Hs Hok Hbp) as (f' & E' & Hok' & R).
  rewrite E in E'. injection E' as ->. exists p. simpl.
  rewrite Hs, last_snoc, removelast_last.
  split; [done|]. split; [done|]. split; [done|]. split.
  { rewrite Hs in Hinv. apply snake_inv_prefix in Hinv; [done|].
    intros ->. rewrite Hs in Hlen. simpl in Hlen. lia. }
  split; [|done]. split; [done|]. simpl. intros q Hq. rewrite R.
  apply NoDup_app in Hnd as (_ & Hdisj & _).
  rewrite decide_False.
  - apply Hmarked. rewrite Hs, elem_of_app. by left.
  - intros ->. apply (Hdisj p Hq). apply list_elem_of_singleton. done.
Qed.

Lemma move_preserves d s s' :
  snake_inv (m_snake_positions s) → snake_on_grid s →
  move d s = Returned s' →
  ∃ h s1, head (m_snake_positions s) = Some h ∧
       lengthen d s = Returned s1 ∧
       snake_t.pop_back_snake_body s1 = Returned s' ∧
       m_snake_positions s' = removelast (ahead d h :: m_snake_positions s) ∧
       m_position s' = m_position s ∧
       snake_inv (m_snake_positions s') ∧ snake_on_grid s'.
Proof.
  intros Hinv Hgrid. rewrite move_unfold.
  intros (s1 & E1 & E2)%and_then_Returned.
  destruct (lengthen_preserves d s s1 Hinv Hgrid E1)
    as (h & Hh & Hs1 & Hf1 & Hinv1 & Hgrid1 & _).
  destruct (pop_back_preserves s1 s' Hinv1) as (p & _ & Hs' & Hf' & Hinv' & Hgrid' & _);
    [|done..|].
  { rewrite Hs1. destruct Hinv as (Hlen & _). simpl. lia. }
  exists h, s1. do 3 (split; [done|]). do 2 (split; [congruence|]). done.
Qed.

(** ** Choosing a fruit position *)

Lemma gen_new_position_Returned samples f pos :
  fruit_t.gen_new_position samples f = Returned pos →
  cell_of f pos = Some EMPTY.
Proof.
  remember (length samples) as n eqn:Hn.
  revert samples Hn. induction (lt_wf n) as [n _ IH]. intros samples Hn.
  destruct samples as [|i [|j rest]]; simpl; [done..|].
  destruct (field_read f i j) as [c|] eqn:Hc; [|done].
  case_bool_decide as Hd.
  - apply (IH (length rest)); [|done]. subst n. simpl. lia.
  - intros [= <-]. unfold cell_of. simpl. rewrite Hc.
    destruct (decide (c = EMPTY)); [by subst|done].
Qed.

Lemma gen_new_position_no_throw samples f pos :
  fruit_t.gen_new_position samples f ≠ Thrown pos.
Proof.
  remember (length samples) as n eqn:Hn.
  revert samples Hn. induction (lt_wf n) as [n _ IH]. intros samples Hn.
  destruct samples as [|i [|j rest]]; simpl; [done..|].
  destruct (field_read f i j) as [c|] eqn:Hc; [|done].
  case_bool_decide as Hd; [|done].
  apply (IH (length rest)); [|done]. subst n. simpl. lia.
Qed.

Lemma new_position_no_throw samples : no_throw (fruit_t.new_position samples).
Proof.
  intros s s'. unfold fruit_t.new_position.
  destruct (fruit_t.gen_new_position samples (field s)) eqn:G; try done.
  - apply assign_cell_no_throw.
  - by apply gen_new_position_no_throw in G.
Qed.

Lemma new_position_Returned samples s s' :
  fruit_t.new_position samples s = Returned s' →
  fruit_t.gen_new_position samples (field s) = Returned (m_position s') ∧
  cell_of (field s) (m_position s') = Some EMPTY ∧
  m_snake_positions s' = m_snake_positions s ∧
  (matrix_ok (field s) → matrix_ok (field s')) ∧
  ∀ q, cell_of (field s') q
       = if decide (q = m_position s') then Some FRUIT
         else cell_of (field s) q.
Proof.
  unfold fruit_t.new_position.
  destruct (fruit_t.gen_new_position samples (field s)) as [pos| | |] eqn:G;
    try done.
  pose proof (gen_new_position_Returned _ _ _ G) as Hpos.
  unfold fruit_t.update_field, assign_cell. simpl.
  destruct (field_write (field s) (pos_i pos) (pos_j pos) FRUIT) as [f'|] eqn:W;
    [|done].
  intros [= <-]. simpl. do 3 (split; [done|]). split.
  - intros Hok. eapply field_write_matrix_ok; eauto.
  - intros q. rewrite (field_read_write _ _ _ _ _ q W). by destruct pos.
Qed.

(** ** The session invariant *)

Lemma expected_on_snake l fruit p :
  p ∈ l → expected l fruit p = SNAKE_HEAD ∨ expected l fruit p = SNAKE_BODY.
Proof.
  destruct l as [|h t]; [by intros ?%elem_of_nil|]. simpl.
  intros [->|Hp]%elem_of_cons.
  - rewrite decide_True by done. by left.
  - destruct (decide (p = h)); [by left|]. rewrite decide_True by done.
    by right.
Qed.

Lemma expected_off_snake l fruit p :
  p ∉ l → expected l fruit p = if decide (p = fruit) then FRUIT else EMPTY.
Proof.
  destruct l as [|h t]; [done|]. simpl.
  intros [Hh Ht]%not_elem_of_cons.
  rewrite (decide_False (P:=p = h)) by done.
  by rewrite (decide_False (P:=p ∈ t)) by done.
Qed.

Lemma session_inv_snake_on_grid s : session_inv s → snake_on_grid s.
Proof.
  intros ((_ & _ & Hb & _) & Hok & _ & _ & Hf). split; [done|].
  intros p Hp. rewrite Hf.
  - destruct (expected_on_snake _ (m_position s) p Hp) as [-> | ->]; auto.
  - rewrite Forall_forall in Hb. by apply Hb.
Qed.

Lemma session_inv_same_world s s' :
  same_world s s' → session_inv s → session_inv s'.
Proof.
  intros (Hf & Hl & Hp). unfold session_inv. by rewrite Hf, Hl, Hp.
Qed.

(** A cell off the snake holds [FRUIT] exactly at the fruit position. *)
Lemma session_inv_fruit_cell s p :
  session_inv s → in_bounds p → p ∉ m_snake_positions s →
  cell_of (field s) p
  = Some (if decide (p = m_position s) then FRUIT else EMPTY).
Proof.
  intros (_ & _ & _ & _ & Hf) Hp Hoff. rewrite Hf by done.
  by rewrite expected_off_snake.
Qed.

Lemma is_fruit_in_direction_head s h :
  head (m_snake_positions s) = Some h →
  is_fruit_in_direction s
  = (c ← cell_of (field s) (ahead (m_direction s) h);
     Some (bool_decide (c = FRUIT))).
Proof.
  intros Hh. unfold is_fruit_in_direction, snake_t.get_head_position.
  by rewrite Hh.
Qed.

Lemma is_fruit_in_direction_Some s h b :
  head (m_snake_positions s) = Some h →
  is_fruit_in_direction s = Some b →
  ∃ c, cell_of (field s) (ahead (m_direction s) h) = Some c ∧
       b = bool_decide (c = FRUIT).
Proof.
  intros Hh. rewrite (is_fruit_in_direction_head s h Hh).
  destruct (cell_of (field s) (ahead (m_direction s) h)) as [c|]; [|done].
  simpl. intros [= <-]. eauto.
Qed.

(** Growing onto the fruit and placing a new one keeps the invariant. *)
Lemma grow_session_inv samples s s1 s' :
  session_inv s →
  is_fruit_in_direction s = Some true →
  lengthen (m_direction s) s = Returned s1 →
  fruit_t.new_position samples s1 = Returned s' →
  session_inv s' ∧
  (length (m_snake_positions s') = S (length (m_snake_positions s))) ∧
  m_position s' ≠ m_position s.
Proof.
  intros Hinv Hfruit E1 E2.
  pose proof (session_inv_snake_on_grid s Hinv) as Hgrid.
  pose proof Hinv as (Hsn & Hok & Hfb & Hfs & Hf).
  destruct (lengthen_preserves _ _ _ Hsn Hgrid E1)
    as (h & Hh & Hs1 & Hp1 & Hsn1 & Hgrid1 & _ & Hfresh & R1).
  destruct (new_position_Returned _ _ _ E2) as (_ & Hpos & Hs' & Hok' & R2).
  destruct (is_fruit_in_direction_Some s h true Hh Hfruit) as (c & Hc & Hb).
  symmetry in Hb. apply bool_decide_eq_true in Hb. subst c.
  set (n := ahead (m_direction s) h) in *.
  assert (in_bounds n) as Hn.
  { apply (field_read_in_bounds (field s) n Hok). by rewrite Hc. }
  assert (n = m_position s) as Hnf.
  { pose proof (session_inv_fruit_cell s n Hinv Hn Hfresh) as Hx.
    rewrite Hc in Hx. by case_decide. }
  destruct Hgrid1 as [Hok1 _].
  assert (in_bounds (m_position s')) as Hposb.
  { apply (field_read_in_bounds (field s1) _ Hok1). by rewrite Hpos. }
  assert ((m_position s' ∉ m_snake_positions s) ∧ m_position s' ≠ n)
    as [Hpos1 Hpos2].
  { rewrite R1 in Hpos. repeat case_decide; done. }
  split; [|split; [by rewrite Hs', Hs1|congruence]].
  unfold session_inv. rewrite Hs', Hs1.
  split; [by rewrite <- Hs1|]. split; [by apply Hok'|]. split; [done|].
  split. { rewrite not_elem_of_cons. done. }
  intros q Hq. rewrite R2, R1. simpl.
  destruct (decide (q = m_position s')) as [->|Hqp].
  { rewrite decide_False by done. by rewrite decide_False. }
  destruct (decide (q ∈ m_snake_positions s)) as [Hql|Hql].
  { rewrite decide_False; [done|]. by intros ->. }
  destruct (decide (q = n)) as [->|Hqn]; [done|].
  rewrite (session_inv_fruit_cell s q Hinv Hq Hql).
  rewrite decide_False; [done|]. congruence.
Qed.

(** A plain move onto a cell that holds no fruit keeps the invariant. *)
Lemma move_session_inv s s' :
  session_inv s →
  is_fruit_in_direction s = Some false →
  move (m_direction s) s = Returned s' →
  session_inv s' ∧
  length (m_snake_positions s') = length (m_snake_positions s) ∧
  m_position s' = m_position s.
Proof.
  intros Hinv Hfruit. rewrite move_unfold.
  intros (s1 & E1 & E2)%and_then_Returned.
  pose proof (session_inv_snake_on_grid s Hinv) as Hgrid.
  pose proof Hinv as (Hsn & Hok & Hfb & Hfs & Hf).
  destruct (lengthen_preserves _ _ _ Hsn Hgrid E1)
    as (h & Hh & Hs1 & Hp1 & Hsn1 & Hgrid1 & (c' & Hc' & Hcc') & Hfresh & R1).
  destruct (is_fruit_in_direction_Some s h false Hh Hfruit) as (c & Hc & Hb).
  symmetry in Hb. apply bool_decide_eq_false in Hb.
  set (n := ahead (m_direction s) h) in *.
  rewrite Hc in Hc'. injection Hc' as <-.
  destruct Hcc' as [-> | ->]; [|done].
  assert (in_bounds n) as Hn.
  { apply (field_read_in_bounds (field s) n Hok). by rewrite Hc. }
  assert (n ≠ m_position s) as Hnf.
  { pose proof (session_inv_fruit_cell s n Hinv Hn Hfresh) as Hx.
    rewrite Hc in Hx. by case_decide. }
  destruct (exists_last (l:=m_snake_positions s)) as (l & p & Hl).
  { intros H0. by rewrite H0 in Hh. }
  destruct (pop_back_preserves s1 s' Hsn1)
    as (p' & Hp' & Hs' & Hf' & Hinv' & Hgrid' & R2); [|done..|].
  { rewrite Hs1. destruct Hsn as (Hlen & _). simpl. lia. }
  rewrite Hs1, Hl in Hp', Hs'.
  change (n :: l ++ [p]) with ((n :: l) ++ [p]) in Hp', Hs'.
  rewrite last_snoc in Hp'. injection Hp' as <-.
  rewrite removelast_last in Hs'.
  pose proof Hsn as (_ & Hnd & _). rewrite Hl in Hnd.
  apply NoDup_app in Hnd as (_ & Hdisj & _).
  assert (p ∉ l) as Hpl.
  { intros Hin. apply (Hdisj p Hin). by apply list_elem_of_singleton. }
  split; [|split; [rewrite Hs', Hl, length_app; simpl; lia|congruence]].
  unfold session_inv. rewrite Hf', Hp1.
  split; [done|]. split; [by destruct Hgrid'|]. split; [done|].
  split.
  { rewrite Hs', not_elem_of_cons. split; [done|].
    intros Hin. apply Hfs. rewrite Hl, elem_of_app. by left. }
  intros q Hq. rewrite R2, R1, Hs'. simpl.
  assert (n ≠ p) as Hnp.
  { intros ->. apply Hfresh. rewrite Hl, elem_of_app. right.
    by apply list_elem_of_singleton. }
  destruct (decide (q = p)) as [->|Hqp].
  { rewrite decide_False by done. rewrite decide_False by done.
    rewrite decide_False; [done|]. intros Heq. apply Hfs.
    rewrite <- Heq, Hl, elem_of_app. right. by apply list_elem_of_singleton. }
  destruct (decide (q ∈ m_snake_positions s)) as [Hql|Hql].
  { rewrite decide_False by (by intros ->).
    rewrite Hl, elem_of_app, list_elem_of_singleton in Hql.
    destruct Hql as [Hql|?]; [|done]. by rewrite decide_True. }
  destruct (decide (q = n)) as [->|Hqn]; [done|].
  rewrite decide_False.
  - by rewrite (session_inv_fruit_cell s q Hinv Hq Hql).
  - intros Hin. apply Hql. rewrite Hl, elem_of_app. by left.
Qed.

(** ** One call of [handle_movement] *)

Lemma handle_movement_blocked samples s :
  is_Some (is_fruit_in_direction s) →
  lengthen (m_direction s) s = Thrown s →
  handle_movement samples s = Returned (set_game_running false s).
Proof.
  intros [b Hq] E. rewrite handle_movement_unfold, move_unfold, Hq.
  unfold try_catch, and_then. rewrite E. by destruct b.
Qed.

(** A query that reads outside the matrix leaves the call without a
    defined result. *)
Lemma handle_movement_off_grid samples s :
  is_fruit_in_direction s = None → handle_movement samples s = Undefined.
Proof. intros Hq. by rewrite handle_movement_unfold, Hq. Qed.

(** With nothing to read ahead of the head, the step is blocked. *)
Lemma no_cell_ahead_blocked s :
  session_inv s → is_fruit_in_direction s = None →
  lengthen (m_direction s) s = Thrown s.
Proof.
  intros Hinv Hq. pose proof Hinv as (Hsn & Hok & _).
  destruct (snake_inv_head _ Hsn) as (h & t & Hs & Hh & _).
  pose proof Hsn as (_ & _ & Hb & _). rewrite Hs in Hb.
  rewrite (is_fruit_in_direction_head s h) in Hq by (by rewrite Hs).
  destruct (cell_of (field s) (ahead (m_direction s) h)) as [c|] eqn:Hc;
    [done|].
  destruct (lengthen_cases (m_direction s) s h t Hs Hok Hb)
    as [[_ E]|[(Hn & _)|(Hn & _)]]; [done|..];
    apply (field_read_in_bounds (field s) _ Hok) in Hn as [? Hn];
    congruence.
Qed.

(** The ways in which [handle_movement] returns. *)
Lemma handle_movement_Returned samples s s' :
  session_inv s →
  handle_movement samples s = Returned s' →
  (lengthen (m_direction s) s = Thrown s ∧ s' = set_game_running false s) ∨
  (is_fruit_in_direction s = Some false ∧
   move (m_direction s) s = Returned s') ∨
  (is_fruit_in_direction s = Some true ∧
   ∃ s1, lengthen (m_direction s) s = Returned s1 ∧
         fruit_t.new_position samples s1 = Returned s').
Proof.
  intros Hinv. destruct (is_fruit_in_direction s) as [b|] eqn:Hq.
  - rewrite handle_movement_unfold, Hq. simpl. destruct b.
    + unfold try_catch. unfold and_then at 1.
      destruct (lengthen (m_direction s) s) as [s1|s1| |] eqn:E; try done.
      * destruct (fruit_t.new_position samples s1) as [s2|s2| |] eqn:E2;
          try done.
        -- intros [= <-]. right. right. eauto.
        -- by apply new_position_no_throw in E2.
      * apply lengthen_Thrown_inv in E as Hs1. subst s1.
        intros [= <-]. by left.
    + unfold try_catch.
      destruct (move (m_direction s) s) as [s1|s1| |] eqn:E; try done.
      * intros [= <-]. right. by left.
      * apply move_Thrown_inv in E as [-> E]. intros [= <-]. by left.
  - by rewrite handle_movement_off_grid.
Qed.

Lemma handle_movement_session_inv samples s s' :
  session_inv s →
  handle_movement samples s = Returned s' →
  session_inv s'.
Proof.
  intros Hinv E.
  destruct (handle_movement_Returned _ _ _ Hinv E)
    as [[_ ->]|[[Hq Hm]|(Hq & s1 & E1 & E2)]].
  - by apply (session_inv_same_world s).
  - by apply (move_session_inv s s' Hinv Hq).
  - by apply (grow_session_inv samples s s1 s' Hinv Hq).
Qed.

(** ** The loop *)

Lemma handle_key_same_world s : same_world s (handle_key s).
Proof. unfold handle_key. by repeat case_decide. Qed.

Lemma poll_events_same_world pending s :
  same_world s (event_t.poll_events pending s).
Proof.
  unfold event_t.poll_events. revert s.
  induction pending as [|e pending IH]; intros s; [done|]. simpl.
  destruct (IH (event_t.handle_event e s)) as (Hf & Hl & Hp).
  unfold same_world. rewrite Hf, Hl, Hp. by destruct e.
Qed.

Lemma tick_Returned fr s s' :
  tick fr s = Returned s' ↔
  ∃ s1, handle_movement (samples fr) (handle_key s) = Returned s1 ∧
        s' = set_waited_time 0 s1.
Proof.
  unfold tick. rewrite and_then_Returned. split; intros (s1 & E & E').
  - exists s1. split; [done|]. by injection E'.
  - exists s1. split; [done|]. by subst.
Qed.

Lemma tick_session_inv fr s s' :
  session_inv s → tick fr s = Returned s' → session_inv s'.
Proof.
  intros Hinv (s1 & E & ->)%tick_Returned.
  apply (session_inv_same_world s1); [done|].
  eapply handle_movement_session_inv; [|exact E].
  eapply session_inv_same_world; [apply handle_key_same_world|done].
Qed.

Lemma loop_body_session_inv fr s s' :
  session_inv s → loop_body fr s = Returned s' → session_inv s'.
Proof.
  intros Hinv. unfold loop_body.
  set (s2 := event_t.poll_events _ _).
  assert (session_inv s2) as Hinv2.
  { eapply session_inv_same_world; [apply poll_events_same_world|].
    by apply (session_inv_same_world s). }
  case_decide; [by apply tick_session_inv|]. by intros [= <-].
Qed.

Lemma empty_field_matrix_ok : matrix_ok empty_field.
Proof. split; [done|]. by repeat constructor. Qed.

Lemma cell_of_empty_field p : in_bounds p → cell_of empty_field p = Some EMPTY.
Proof.
  intros [Hi Hj]. unfold cell_of, field_read, empty_field.
  rewrite decide_True by lia. rewrite lookup_replicate_2 by lia.
  apply (lookup_replicate_2 (Z.to_nat width) EMPTY). lia.
Qed.

Lemma setup_session_inv fruit_samples s :
  setup fruit_samples = Returned s → session_inv s.
Proof.
  unfold setup. intros (s0 & E0 & E1)%and_then_Returned.
  unfold snake_t.construct in E0. apply and_then_Returned in E0 as (sa & Ea & E0).
  injection Ea as <-. simpl in E0.
  set (c := mk_position (height / 2 - 1) (width / 2 - 1)) in *.
  assert (in_bounds c) as Hc by (by vm_compute).
  destruct (update_field_spec (set_snake_positions [c] fresh) c [] eq_refl)
    as (f0 & E0' & Hok0 & R0); [apply empty_field_matrix_ok|by constructor|].
  rewrite E0 in E0'. injection E0' as ->.
  destruct (new_position_Returned _ _ _ E1) as (_ & Hpos & Hs & Hok & R).
  simpl in *. specialize (Hok Hok0).
  assert (in_bounds (m_position s)) as Hposb.
  { apply (field_read_in_bounds f0 _ Hok0). by rewrite Hpos. }
  assert (m_position s ≠ c) as Hne.
  { intros Heq. rewrite R0, Heq in Hpos. by rewrite decide_True in Hpos. }
  unfold session_inv. rewrite Hs. split.
  { repeat split; [simpl; lia|apply NoDup_singleton|by constructor]. }
  split; [done|]. split; [done|].
  split. { by intros ?%list_elem_of_singleton. }
  intros q Hq. rewrite R, R0. simpl.
  destruct (decide (q = m_position s)) as [->|Hqp].
  { by rewrite decide_False by done. }
  destruct (decide (q = c)); [done|].
  by apply cell_of_empty_field.
Qed.

Lemma reachable_session_inv s : reachable s → session_inv s.
Proof.
  induction 1 as [samples s E|fr s s' _ IH _ _ E].
  - by apply (setup_session_inv samples).
  - by apply (loop_body_session_inv fr s).
Qed.

(** ** Control members across a tick *)

Lemma handle_movement_shape samples s s' :
  handle_movement samples s = Returned s' →
  (lengthen (m_direction s) s = Thrown s ∧ s' = set_game_running false s) ∨
  (same_controls s s' ∧
   (move (m_direction s) s = Returned s' ∨
    ∃ s1, lengthen (m_direction s) s = Returned s1 ∧
          fruit_t.new_position samples s1 = Returned s')).
Proof.
  rewrite handle_movement_unfold.
  destruct (is_fruit_in_direction s) as [[|]|]; [| |done]; unfold try_catch.
  - unfold and_then at 1.
    destruct (lengthen (m_direction s) s) as [s1|s1| |] eqn:E; try done.
    + destruct (fruit_t.new_position samples s1) as [s2|s2| |] eqn:E2;
        try done.
      * intros [= <-]. right. split; [|eauto].
        eapply same_controls_trans;
          [by apply lengthen_keeps_controls in E
          |by apply new_position_keeps_controls in E2].
      * by apply new_position_no_throw in E2.
    + apply lengthen_Thrown_inv in E as Hs1. subst s1.
      intros [= <-]. by left.
  - destruct (move (m_direction s) s) as [s1|s1| |] eqn:E; try done.
    + intros [= <-]. right. split; [|by left].
      by apply move_keeps_controls in E.
    + apply move_Thrown_inv in E as [-> E]. intros [= <-]. by left.
Qed.

Lemma handle_movement_direction samples s s' :
  handle_movement samples s = Returned s' →
  m_direction s' = m_direction s.
Proof.
  intros [[_ ->]|[Hc _]]%handle_movement_shape; [done|].
  by destruct Hc as (_ & _ & ? & _).
Qed.

Lemma handle_movement_stays_stopped samples s s' :
  m_game_running s = false →
  handle_movement samples s = Returned s' →
  m_game_running s' = false.
Proof.
  intros Hr [[_ ->]|[Hc _]]%handle_movement_shape; [done|].
  destruct Hc as (? & _). congruence.
Qed.

(** Once the flag is cleared the loop is left and the score is the
    length of the snake. *)
Lemma while_loop_stopped frames s :
  m_game_running s = false →
  (while_loop frames ;> report_score) s
  = Returned (set_score (snake_t.get_length s) s).
Proof.
  intros Hr. unfold and_then.
  destruct frames; simpl; by rewrite Hr.
Qed.

Lemma while_loop_step fr rest s :
  Running s →
  (while_loop (fr :: rest) ;> report_score) s
  = (loop_body fr ;> while_loop rest ;> report_score) s.
Proof.
  intros [Hr Hq]. unfold and_then. simpl. rewrite Hr, Hq. simpl.
  unfold and_then. by destruct (loop_body fr s).
Qed.

Lemma loop_body_tick fr s :
  tick_due fr s → loop_body fr s = tick fr (polled fr s).
Proof. intros Hd. unfold loop_body. by rewrite decide_True. Qed.

Lemma polled_same_world fr s : same_world s (polled fr s).
Proof.
  unfold polled.
  destruct (poll_events_same_world (pending fr)
              (set_waited_time (waited_time s + elapsed_time fr) s))
    as (Hf & Hl & Hp).
  unfold same_world. by rewrite Hf, Hl, Hp.
Qed.

(** ** Reachability of the example sessions *)

Lemma passes_reachable frames : ∀ s s',
  reachable s → passes frames s = Some s' → reachable s'.
Proof.
  induction frames as [|fr rest IH]; intros s s' Hs; simpl.
  - by intros [= <-].
  - destruct (m_game_running s) eqn:Hr; [|done].
    destruct (event_t.quit s) eqn:Hq; [done|]. simpl.
    destruct (loop_body fr s) as [s1| | |] eqn:E; try done.
    apply IH. by apply (reach_pass fr s).
Qed.

Lemma start_session_reachable : reachable start_session.
Proof. apply (reach_setup [3; 4]). vm_compute. reflexivity. Qed.

Lemma top_row_session_reachable : reachable top_row_session.
Proof.
  apply (passes_reachable [quiet_frame; quiet_frame; quiet_frame; quiet_frame]
           far_fruit_session).
  - apply (reach_setup [7; 7]). vm_compute. reflexivity.
  - vm_compute. reflexivity.
Qed.

(** A due tick whose fruit query reads outside the matrix has no defined
    result: sessions are reached through in-range queries only. *)
Lemma off_grid_tick_undefined fr s :
  tick_due fr s →
  is_fruit_in_direction (handle_key (polled fr s)) = None →
  loop_body fr s = Undefined.
Proof.
  intros Hdue Hq. rewrite loop_body_tick by done.
  unfold tick, and_then. by rewrite handle_movement_off_grid.
Qed.

(** A due tick whose query is answered and whose step throws: the pass
    returns with the flag cleared and the timer reset. *)
Lemma blocked_pass fr s :
  tick_due fr s →
  is_Some (is_fruit_in_direction (handle_key (polled fr s))) →
  lengthen (m_direction (handle_key (polled fr s))) (handle_key (polled fr s))
  = Thrown (handle_key (polled fr s)) →
  loop_body fr s
  = Returned (set_waited_time 0
                (set_game_running false (handle_key (polled fr s)))).
Proof.
  intros Hdue Hq Hblocked. rewrite loop_body_tick by done.
  unfold tick, and_then.
  by rewrite (handle_movement_blocked _ _ Hq Hblocked).
Qed.

(** ** Scenarios of the specification *)

(** Down is ignored while heading up; after four ticks upwards the snake
    still has length 1, its head is at (0,4) and the session is running. *)
Example scenario_top_edge :
  m_direction (handle_key (set_last_pressed_key SDL_SCANCODE_DOWN
                             far_fruit_session)) = UP ∧
  passes [quiet_frame; quiet_frame; quiet_frame; quiet_frame]
    far_fruit_session = Some top_row_session ∧
  m_snake_positions top_row_session = [mk_position 0 4] ∧
  m_game_running top_row_session = true.
Proof. repeat split; reflexivity. Qed.

(** With the fruit right above the head, one tick upwards makes the snake
    two positions long and puts the fruit on a cell that was free. *)
Example scenario_eat_fruit :
  ∃ s', loop_body quiet_frame start_session = Returned s' ∧
        m_snake_positions s' = [mk_position 3 4; mk_position 4 4] ∧
        m_position s' = mk_position 7 7 ∧
        cell_of (field start_session) (mk_position 7 7) = Some EMPTY ∧
        cell_of (field s') (mk_position 7 7) = Some FRUIT.
Proof.
  eexists. split; [vm_compute; reflexivity|].
  repeat split; reflexivity.
Qed.

(** ** C9: a reversing key leaves the heading alone *)

(** C9.  When the key read by a tick asks for the exact reverse of the
    stored heading (Down while heading Up, Up while Down, Right while
    Left, Left while Right), the [switch] on the key leaves the heading
    as it is, and so does the whole tick.  Nothing is assumed about the
    snake, so this covers a snake of length 1. *)
Theorem reversal_keeps_heading (s : session)
    (Hrev : event_t.get_key s = reverse_key (m_direction s)) :
  m_direction (handle_key s) = m_direction s ∧
  ∀ fr s', tick fr s = Returned s' → m_direction s' = m_direction s.
Proof.
  assert (m_direction (handle_key s) = m_direction s) as Hk.
  { unfold handle_key. rewrite Hrev.
    destruct (m_direction s) eqn:Hd; simpl; repeat case_decide; try done;
      simpl; congruence. }
  split; [done|].
  intros fr s' (s1 & E & ->)%tick_Returned.
  apply handle_movement_direction in E. simpl. congruence.
Qed.

Lemma reversal_keeps_heading_witness :
  length (m_snake_positions start_session) = 1%nat ∧
  event_t.get_key (set_last_pressed_key SDL_SCANCODE_DOWN start_session)
  = reverse_key UP ∧
  m_direction
    (handle_key (set_last_pressed_key SDL_SCANCODE_DOWN start_session)) = UP.
Proof.
  split; [reflexivity|]. split; [reflexivity|].
  exact (proj1 (reversal_keeps_heading
                  (set_last_pressed_key SDL_SCANCODE_DOWN start_session)
                  eq_refl)).
Defined.

(** ** C6: a move off the grid *)

Lemma blocked_either d s :
  lengthen d s = Thrown s ∨ move d s = Thrown s → lengthen d s = Thrown s.
Proof. intros [E|E]; [done|]. by apply move_Thrown_inv in E as [_ E]. Qed.

(** C6.  The default play: the fruit is drawn at (7,7) and no key is
    pressed.  After four ticks the session is running with the head at
    (0,4), heading up.  In the fifth tick the move is one off the grid:
    [lengthen_snake_up] and [move_up] both throw there, and the [catch]
    of [handle_movement] would end the session with score 1.  But
    [handle_movement] calls [is_fruit_in_direction] before either of
    them, and that call reads row -1 of the matrix: the tick, and with it
    [game_loop], has no defined result, where the claim has an ended
    session whose score is the length of the snake. *)
Theorem wall_move_has_no_defined_result :
  setup [7; 7] = Returned far_fruit_session ∧
  passes [quiet_frame; quiet_frame; quiet_frame; quiet_frame]
    far_fruit_session = Some top_row_session ∧
  Running top_row_session ∧ tick_due quiet_frame top_row_session ∧
  handle_key (polled quiet_frame top_row_session)
  = set_waited_time 160 top_row_session ∧
  m_snake_positions top_row_session = [mk_position 0 4] ∧
  m_direction top_row_session = UP ∧
  snake_t.lengthen_snake_up (set_waited_time 160 top_row_session)
  = Thrown (set_waited_time 160 top_row_session) ∧
  snake_t.move_up (set_waited_time 160 top_row_session)
  = Thrown (set_waited_time 160 top_row_session) ∧
  is_fruit_in_direction (set_waited_time 160 top_row_session) = None ∧
  handle_movement [7; 7] (set_waited_time 160 top_row_session) = Undefined ∧
  loop_body quiet_frame top_row_session = Undefined ∧
  game_loop [7; 7]
    [quiet_frame; quiet_frame; quiet_frame; quiet_frame; quiet_frame]
  = Undefined.
Proof.
  split; [reflexivity|]. split; [reflexivity|].
  split; [by vm_compute|]. split; [by vm_compute|].
  repeat split; vm_compute; reflexivity.
Qed.

(** ** C1: Escape during a tick *)

Lemma handle_key_escape s :
  event_t.get_key s = SDL_SCANCODE_ESCAPE →
  handle_key s = set_game_running false s.
Proof. intros Hk. unfold handle_key. by rewrite Hk. Qed.

(** C1, as the program behaves.  In a tick that reads Escape the running
    flag is cleared first and [handle_movement] is still called on the
    session: the snake moves, grows (and the fruit is placed anew) or is
    blocked as in any other tick.  The pass returns with the flag
    cleared, the loop is left, and the score reported is the length of
    the snake after that movement: the length it had when Escape was
    read, or one more when the fruit was eaten in this tick. *)
Theorem escape_ends_after_movement (fr : frame) (rest : list frame)
    (s s' : session)
    (Hreach : reachable s) (Hrun : Running s) (Hdue : tick_due fr s)
    (Hesc : event_t.get_key (polled fr s) = SDL_SCANCODE_ESCAPE)
    (Hpass : loop_body fr s = Returned s') :
  (∃ s1, handle_movement (samples fr)
           (set_game_running false (polled fr s)) = Returned s1 ∧
         s' = set_waited_time 0 s1) ∧
  m_game_running s' = false ∧
  (while_loop (fr :: rest) ;> report_score) s
  = Returned (set_score (snake_t.get_length s') s') ∧
  (snake_t.get_length s' = snake_t.get_length s ∨
   (snake_t.get_length s' = snake_t.get_length s + 1 ∧
    is_fruit_in_direction (set_game_running false (polled fr s))
    = Some true)).
Proof.
  rewrite loop_body_tick in Hpass by done.
  apply tick_Returned in Hpass as (s1 & E & ->).
  rewrite (handle_key_escape _ Hesc) in E.
  set (s2 := set_game_running false (polled fr s)) in *.
  assert (session_inv s2) as Hinv.
  { apply (session_inv_same_world s); [|by apply reachable_session_inv].
    destruct (polled_same_world fr s) as (Hf & Hl & Hp). by repeat split. }
  assert (m_snake_positions s2 = m_snake_positions s) as Hl2.
  { by destruct (polled_same_world fr s) as (_ & Hl & _). }
  split; [eauto|].
  assert (m_game_running s1 = false) as Hstop.
  { by apply (handle_movement_stays_stopped (samples fr) s2). }
  split; [done|]. split.
  - rewrite while_loop_step by done. unfold and_then at 1.
    rewrite loop_body_tick by done.
    assert (tick fr (polled fr s) = Returned (set_waited_time 0 s1)) as ->.
    { apply tick_Returned. exists s1. split; [|done].
      by rewrite (handle_key_escape _ Hesc). }
    by rewrite while_loop_stopped.
  - unfold snake_t.get_length. simpl. rewrite <- Hl2.
    destruct (handle_movement_Returned _ _ _ Hinv E)
      as [[_ ->]|[[Hq Hm]|(Hq & s1' & E1 & E2)]].
    + by left.
    + left. destruct (move_session_inv s2 s1 Hinv Hq Hm) as (_ & -> & _).
      done.
    + right. split; [|done].
      destruct (grow_session_inv _ s2 s1' s1 Hinv Hq E1 E2) as (_ & -> & _).
      lia.
Qed.

Lemma escape_ends_after_movement_witness :
  reachable start_session ∧ Running start_session ∧
  tick_due escape_frame start_session ∧
  event_t.get_key (polled escape_frame start_session) = SDL_SCANCODE_ESCAPE ∧
  ∃ s', loop_body escape_frame start_session = Returned s' ∧
        m_game_running s' = false ∧
        (while_loop [escape_frame] ;> report_score) start_session
        = Returned (set_score (snake_t.get_length s') s').
Proof.
  split; [apply start_session_reachable|].
  split; [by vm_compute|]. split; [by vm_compute|].
  split; [by vm_compute|].
  destruct (loop_body escape_frame start_session) as [s'| | |] eqn:E;
    [|by vm_compute in E..].
  exists s'. split; [done|].
  destruct (escape_ends_after_movement escape_frame [] start_session s')
    as (_ & Hstop & Hscore & _);
    [apply start_session_reachable|by vm_compute..|exact E|].
  by split.
Defined.

(** C1, as the claim words it, fails: from the session in which the
    fruit lies right above the head of a snake of length 1, one tick that
    reads Escape still makes the snake eat the fruit.  The snake then has
    two positions, the fruit has been placed anew at (7,7), and
    [game_loop] reports the score 2, not the length 1 the snake had when
    Escape was read. *)
Lemma escape_tick_still_grows :
  Running start_session ∧
  snake_t.get_length start_session = 1 ∧
  m_position start_session = mk_position 3 4 ∧
  event_t.get_key (polled escape_frame start_session) = SDL_SCANCODE_ESCAPE ∧
  ∃ s' s_end,
    loop_body escape_frame start_session = Returned s' ∧
    m_game_running s' = false ∧
    m_snake_positions s' = [mk_position 3 4; mk_position 4 4] ∧
    m_position s' = mk_position 7 7 ∧
    game_loop [3; 4] [escape_frame] = Returned s_end ∧
    get_score s_end = 2.
Proof.
  split; [by vm_compute|]. split; [by vm_compute|].
  split; [by vm_compute|]. split; [by vm_compute|].
  eexists. eexists.
  split; [vm_compute; reflexivity|]. split; [reflexivity|].
  split; [reflexivity|]. split; [reflexivity|].
  split; [vm_compute; reflexivity|]. reflexivity.
Qed.

(** ** C2: the fruit query at the edge of the grid *)

(** C2.  The session reached after four ticks upwards is running, its head
    is at (0,4) and its heading is up.  The position [is_fruit_in_direction]
    inspects there is (-1,4), outside the grid, and the function reads it
    through the unchecked [operator()]: the read has no defined result.
    The checked accessor [at] would answer [ERROR] for that position, but
    the query does not go through it. *)
Theorem fruit_query_reads_outside_matrix :
  reachable top_row_session ∧ Running top_row_session ∧
  snake_t.get_head_position top_row_session = Some (mk_position 0 4) ∧
  m_direction top_row_session = UP ∧
  ahead UP (mk_position 0 4) = mk_position (-1) 4 ∧
  ¬ in_bounds (mk_position (-1) 4) ∧
  field_read (field top_row_session) (-1) 4 = None ∧
  is_fruit_in_direction top_row_session = None ∧
  field_at (field top_row_session) (-1) 4 = Some ERROR.
Proof.
  split; [apply top_row_session_reachable|].
  split; [by vm_compute|]. split; [reflexivity|]. split; [reflexivity|].
  split; [reflexivity|]. split; [unfold in_bounds; simpl; lia|].
  split; [reflexivity|]. split; reflexivity.
Qed.

(** ** C10: growth onto a fruit cell never fails *)

Lemma fruit_ahead_grows s :
  session_inv s → is_fruit_in_direction s = Some true →
  ∃ s1, lengthen (m_direction s) s = Returned s1 ∧
        length (m_snake_positions s1) = S (length (m_snake_positions s)).
Proof.
  intros Hinv Hq. pose proof Hinv as (Hsn & Hok & _).
  destruct (snake_inv_head _ Hsn) as (h & t & Hs & Hh & _).
  pose proof Hsn as (_ & _ & Hb & _). rewrite Hs in Hb.
  destruct (is_fruit_in_direction_Some s h true) as (c & Hc & Hcf);
    [by rewrite Hs|done|].
  symmetry in Hcf. apply bool_decide_eq_true in Hcf. subst c.
  destruct (lengthen_cases (m_direction s) s h t Hs Hok Hb)
    as [[Hn _]|[(_ & (c & Hc' & ? & ?) & _)|(_ & _ & f' & E & _)]].
  - exfalso. apply Hn. apply (field_read_in_bounds (field s) _ Hok).
    by rewrite Hc.
  - congruence.
  - eexists. split; [exact E|]. simpl. by rewrite Hs.
Qed.

(** C10.  Take a reachable running session and a pass of the loop whose
    tick, after reading the key, finds a fruit in the cell ahead of the
    head in the heading then stored.  The growth operation called by that
    tick returns with the snake one position longer, the [catch] of the
    fruit case is not entered, and whenever [handle_movement] returns it
    leaves the running flag as the key handling left it: eating the fruit
    does not end the session. *)
Theorem fruit_case_never_blocked (fr : frame) (s : session)
    (Hreach : reachable s) (Hrun : Running s)
    (Hfruit : is_fruit_in_direction (handle_key (polled fr s)) = Some true) :
  (∃ s1, lengthen (m_direction (handle_key (polled fr s)))
           (handle_key (polled fr s)) = Returned s1 ∧
         length (m_snake_positions s1) = S (length (m_snake_positions s))) ∧
  handle_movement (samples fr) (handle_key (polled fr s))
  = (lengthen (m_direction (handle_key (polled fr s))) ;>
     fruit_t.new_position (samples fr)) (handle_key (polled fr s)) ∧
  ∀ s', handle_movement (samples fr) (handle_key (polled fr s))
        = Returned s' →
        m_game_running s' = m_game_running (handle_key (polled fr s)).
Proof.
  set (s3 := handle_key (polled fr s)) in *.
  assert (same_world s s3) as Hw.
  { destruct (polled_same_world fr s) as (Hf & Hl & Hp).
    destruct (handle_key_same_world (polled fr s)) as (Hf' & Hl' & Hp').
    unfold same_world. fold s3 in Hf', Hl', Hp'.
    by rewrite Hf', Hl', Hp'. }
  assert (session_inv s3) as Hinv.
  { apply (session_inv_same_world s); [done|]. by apply reachable_session_inv. }
  destruct (fruit_ahead_grows s3 Hinv Hfruit) as (s1 & E1 & Hlen).
  split. { exists s1. split; [done|]. destruct Hw as (_ & <- & _). done. }
  assert (handle_movement (samples fr) s3
          = (lengthen (m_direction s3) ;> fruit_t.new_position (samples fr)) s3)
    as Heq.
  { rewrite handle_movement_unfold, Hfruit. simpl. unfold try_catch.
    unfold and_then. rewrite E1.
    destruct (fruit_t.new_position (samples fr) s1) eqn:E2; try done.
    by apply new_position_no_throw in E2. }
  split; [done|].
  intros s' E. rewrite Heq in E.
  apply and_then_Returned in E as (s1' & E1' & E2).
  apply lengthen_keeps_controls in E1' as (Hr1 & _).
  apply new_position_keeps_controls in E2 as (Hr2 & _). congruence.
Qed.

Lemma fruit_case_never_blocked_witness :
  reachable start_session ∧ Running start_session ∧
  is_fruit_in_direction (handle_key (polled quiet_frame start_session))
  = Some true ∧
  ∃ s1, lengthen (m_direction (handle_key (polled quiet_frame start_session)))
          (handle_key (polled quiet_frame start_session)) = Returned s1 ∧
        length (m_snake_positions s1)
        = S (length (m_snake_positions start_session)).
Proof.
  split; [apply start_session_reachable|]. split; [by vm_compute|].
  split; [reflexivity|].
  apply (fruit_case_never_blocked quiet_frame start_session).
  - apply start_session_reachable.
  - by vm_compute.
  - reflexivity.
Defined.

(** ** C3: when a step is refused *)

Lemma session_inv_stores_no_error s :
  session_inv s → stores_no_error (field s).
Proof.
  intros (_ & Hok & _ & _ & Hf) p Hp.
  assert (in_bounds p) as Hb.
  { apply (field_read_in_bounds (field s) p Hok). by rewrite Hp. }
  rewrite Hf in Hp by done. injection Hp as Hp. revert Hp.
  unfold expected. destruct (m_snake_positions s); repeat case_decide; done.
Qed.

Lemma pop_back_after_lengthen (n : position_t) l f s :
  l ≠ [] → Forall in_bounds (n :: l) → matrix_ok f →
  ∃ s2, snake_t.pop_back_snake_body (set_field f (set_snake_positions (n :: l) s))
        = Returned s2 ∧
        m_snake_positions s2 = removelast (n :: l) ∧
        head (m_snake_positions s2) = Some n.
Proof.
  intros Hl Hb Hok.
  destruct (exists_last Hl) as (l0 & p & ->).
  assert (in_bounds p) as Hp.
  { rewrite Forall_forall in Hb. apply Hb.
    rewrite elem_of_cons, elem_of_app, list_elem_of_singleton. auto. }
  destruct (pop_back_snake_body_spec
              (set_field f (set_snake_positions (n :: l0 ++ [p]) s))
              (n :: l0) p eq_refl Hok Hp) as (f' & E & _).
  eexists. split; [exact E|].
  change (n :: l0 ++ [p]) with ((n :: l0) ++ [p]).
  rewrite removelast_last. done.
Qed.

(** C3.  Let the snake satisfy its invariant on a 10 x 10 matrix that
    holds no [ERROR] cell, and let the candidate be the head plus the unit
    offset of direction [d].  The growth operation [lengthen_snake_d] and
    the movement operation [move_d] throw exactly when the candidate lies
    outside the grid or its cell is [SNAKE_HEAD] or [SNAKE_BODY] (for
    such a matrix: neither [EMPTY] nor [FRUIT]).  Otherwise both return,
    the growth with the candidate put in front of the sequence, the
    movement with the candidate in front and the last position removed. *)
Theorem blocked_move_iff (d : direction_type) (s : session)
    (Hsnake : snake_inv (m_snake_positions s))
    (Hok : matrix_ok (field s))
    (Hnoerr : stores_no_error (field s)) :
  ∃ h, snake_t.get_head_position s = Some h ∧
    (lengthen d s = Thrown s ↔ blocked s (ahead d h)) ∧
    (move d s = Thrown s ↔ blocked s (ahead d h)) ∧
    (blocked s (ahead d h) ↔
     ¬ in_bounds (ahead d h) ∨
     (cell_of (field s) (ahead d h) ≠ Some EMPTY ∧
      cell_of (field s) (ahead d h) ≠ Some FRUIT)) ∧
    (¬ blocked s (ahead d h) →
     ∃ s1 s2,
       lengthen d s = Returned s1 ∧
       m_snake_positions s1 = ahead d h :: m_snake_positions s ∧
       move d s = Returned s2 ∧
       m_snake_positions s2 = removelast (ahead d h :: m_snake_positions s) ∧
       snake_t.get_head_position s2 = Some (ahead d h)).
Proof.
  destruct (snake_inv_head _ Hsnake) as (h & t & Hs & Hh & _).
  pose proof Hsnake as (_ & _ & Hb & _). rewrite Hs in Hb.
  exists h. unfold snake_t.get_head_position. rewrite Hs.
  split; [done|]. unfold blocked. rewrite move_unfold. unfold and_then.
  destruct (lengthen_cases d s h t Hs Hok Hb)
    as [[Hn E]|[(Hn & (c & Hc & Hce & Hcf) & E)
               |(Hn & (c & Hc & Hcc) & f' & E & Hok' & R)]];
    rewrite E.
  - split; [by split; auto|]. split; [by split; auto|].
    split; [by split; auto|]. intros Hnb. exfalso. auto.
  - assert (c = SNAKE_HEAD ∨ c = SNAKE_BODY) as Hc'.
    { destruct c; auto; try done. by destruct (Hnoerr (ahead d h)). }
    assert (cell_of (field s) (ahead d h) = Some SNAKE_HEAD ∨
            cell_of (field s) (ahead d h) = Some SNAKE_BODY) as Hcell.
    { rewrite Hc. destruct Hc' as [-> | ->]; auto. }
    split; [by split; auto|]. split; [by split; auto|]. split.
    + split; [|auto]. intros _. right. rewrite Hc.
      split; congruence.
    + intros Hnb. exfalso. auto.
  - assert (¬ (¬ in_bounds (ahead d h) ∨
               cell_of (field s) (ahead d h) = Some SNAKE_HEAD ∨
               cell_of (field s) (ahead d h) = Some SNAKE_BODY)) as Hfree.
    { rewrite Hc. intros [?|[?|?]]; [done|destruct Hcc; congruence..]. }
    destruct (pop_back_after_lengthen (ahead d h) (h :: t) f' s)
      as (s2 & E2 & Hs2 & Hh2); [done|by apply Forall_cons|done|].
    split; [split; [done|by intros ?]|].
    split. { rewrite E2. split; [done|by intros ?]. }
    split.
    { split; [by intros ?|]. rewrite Hc.
      intros [?|[? ?]]; [done|]. destruct Hcc; congruence. }
    intros _. eexists. exists s2. split; [reflexivity|].
    split; [done|]. rewrite E2. done.
Qed.

Lemma blocked_move_iff_witness :
  snake_inv (m_snake_positions top_row_session) ∧
  matrix_ok (field top_row_session) ∧
  stores_no_error (field top_row_session) ∧
  ∃ h, snake_t.get_head_position top_row_session = Some h ∧
       (lengthen UP top_row_session = Thrown top_row_session
        ↔ blocked top_row_session (ahead UP h)) ∧
       ¬ blocked top_row_session (ahead LEFT h).
Proof.
  pose proof (reachable_session_inv _ top_row_session_reachable) as Hinv.
  pose proof Hinv as (Hsn & Hok & _).
  pose proof (session_inv_stores_no_error _ Hinv) as Hne.
  split; [done|]. split; [done|]. split; [done|].
  destruct (blocked_move_iff UP top_row_session Hsn Hok Hne)
    as (h & Hh & Hup & _).
  exists h. split; [done|]. split; [done|].
  injection Hh as <-. unfold blocked.
  intros [Hn|[Hc|Hc]]; [apply Hn; by vm_compute|by vm_compute in Hc..].
Defined.

(** ** C5: the invariant of the position sequence *)

(** C5.  In every session the loop can reach, the position sequence of
    the snake has at least one element, no element twice, every element
    inside the grid, and consecutive elements adjacent; the snake is also
    marked on the matrix.  From any session in which this holds, every
    growth operation [lengthen_snake_d] and every movement operation
    [move_d] that returns leaves a session in which it holds again, and
    one that throws leaves the session untouched. *)
Theorem snake_invariant (s : session) :
  (reachable s → snake_inv (m_snake_positions s) ∧ snake_on_grid s) ∧
  (snake_inv (m_snake_positions s) → snake_on_grid s →
   ∀ d s',
     (lengthen d s = Returned s' ∨ move d s = Returned s' →
      snake_inv (m_snake_positions s') ∧ snake_on_grid s') ∧
     (lengthen d s = Thrown s' ∨ move d s = Thrown s' → s' = s)).
Proof.
  split.
  - intros Hinv%reachable_session_inv. split; [by destruct Hinv|].
    by apply session_inv_snake_on_grid.
  - intros Hsn Hgrid d s'. split.
    + intros [E|E].
      * by destruct (lengthen_preserves d s s' Hsn Hgrid E)
          as (_ & _ & _ & _ & ? & ? & _).
      * by destruct (move_preserves d s s' Hsn Hgrid E)
          as (_ & _ & _ & _ & _ & _ & _ & ? & ?).
    + intros [E|E]; [by apply lengthen_Thrown_inv in E|].
      by apply move_Thrown_inv in E as [? _].
Qed.

Lemma snake_invariant_witness :
  reachable start_session ∧
  snake_inv (m_snake_positions start_session) ∧
  ∃ s', move LEFT start_session = Returned s' ∧
        m_snake_positions s' = [mk_position 4 3] ∧
        snake_inv (m_snake_positions s').
Proof.
  split; [apply start_session_reachable|].
  destruct (snake_invariant start_session) as [Hreach Hstep].
  destruct (Hreach start_session_reachable) as [Hsn Hgrid].
  split; [done|].
  destruct (move LEFT start_session) as [s'| | |] eqn:E;
    [|by vm_compute in E..].
  exists s'. split; [done|].
  split; [vm_compute in E; by injection E as <-|].
  destruct (Hstep Hsn Hgrid LEFT s') as [Hkeep _].
  apply Hkeep. by right.
Defined.

(** ** C7: where a fruit is put *)

(** C7.  Whenever the constructor of the fruit or [new_position] returns,
    the position it chose held [EMPTY] on the matrix it was given; if the
    snake is marked on that matrix, the position is none of the snake's;
    and on the matrix it leaves, that cell holds [FRUIT] while every other
    cell is as before. *)
Theorem fruit_lands_on_empty_cell (samples : list Z) (s s' : session)
    (Hnew : fruit_t.construct samples s = Returned s' ∨
            fruit_t.new_position samples s = Returned s') :
  fruit_t.gen_new_position samples (field s) = Returned (m_position s') ∧
  cell_of (field s) (m_position s') = Some EMPTY ∧
  (snake_on_grid s → m_position s' ∉ m_snake_positions s) ∧
  cell_of (field s') (m_position s') = Some FRUIT ∧
  (∀ q, q ≠ m_position s' → cell_of (field s') q = cell_of (field s) q).
Proof.
  assert (fruit_t.new_position samples s = Returned s') as E
    by (by destruct Hnew).
  destruct (new_position_Returned _ _ _ E) as (Hgen & Hpos & Hs & _ & R).
  split; [done|]. split; [done|]. split; [|split].
  - intros [_ Hmarked] Hin. apply Hmarked in Hin as [Hin|Hin]; congruence.
  - rewrite R. by rewrite decide_True.
  - intros q Hq. rewrite R. by rewrite decide_False.
Qed.

Lemma fruit_lands_on_empty_cell_witness :
  ∃ s0 s',
    snake_t.construct fresh = Returned s0 ∧
    fruit_t.construct [4; 4; 3; 4] s0 = Returned s' ∧
    m_position s' = mk_position 3 4 ∧
    cell_of (field s0) (m_position s') = Some EMPTY ∧
    cell_of (field s') (m_position s') = Some FRUIT.
Proof.
  destruct (snake_t.construct fresh) as [s0| | |] eqn:E0;
    [|by vm_compute in E0..].
  destruct (fruit_t.construct [4; 4; 3; 4] s0) as [s'| | |] eqn:E1;
    [|vm_compute in E0; injection E0 as <-; by vm_compute in E1..].
  exists s0, s'. split; [done|]. split; [done|].
  destruct (fruit_lands_on_empty_cell [4; 4; 3; 4] s0 s' (or_introl E1))
    as (_ & Hempty & _ & Hfruit & _).
  split; [|done].
  vm_compute in E0. injection E0 as <-.
  vm_compute in E1. by injection E1 as <-.
Defined.

(** ** C8: termination of the search for a fruit position *)

Lemma samples_from_step m n rng :
  samples_from m (S (S n)) rng
  = rng m :: rng (S m) :: samples_from (S (S m)) n rng.
Proof. done. Qed.

Lemma proposal_proposal_at rng k : proposal rng k = proposal_at rng (2 * k).
Proof.
  unfold proposal, proposal_at. by replace (2 * k + 1)%nat with (S (2 * k)) by lia.
Qed.

Lemma in_range_in_bounds rng m : in_range rng → in_bounds (proposal_at rng m).
Proof.
  intros Hr. pose proof (Hr m). pose proof (Hr (S m)).
  unfold in_bounds, proposal_at, height, width, globals.field_height,
    globals.field_width in *. simpl. lia.
Qed.

(** A generation that returns gives the first proposal on an [EMPTY]
    cell. *)
Lemma gen_new_position_hit f rng n : ∀ m pos,
  fruit_t.gen_new_position (samples_from m n rng) f = Returned pos →
  ∃ k, pos = proposal_at rng (m + 2 * k) ∧
       cell_of f pos = Some EMPTY ∧
       ∀ k', (k' < k)%nat →
             cell_of f (proposal_at rng (m + 2 * k')) ≠ Some EMPTY.
Proof.
  induction (lt_wf n) as [n _ IH]. intros m pos.
  destruct n as [|[|n]]; [done..|].
  rewrite samples_from_step. cbn [fruit_t.gen_new_position].
  destruct (field_read f (rng m) (rng (S m))) as [c|] eqn:Hc; [|done].
  case_bool_decide as Hd.
  - intros (k & -> & Hk & Hfirst)%IH; [|lia].
    exists (S k). split; [f_equal; lia|].
    replace (S (S m) + 2 * k)%nat with (m + 2 * S k)%nat in * by lia.
    split; [done|]. intros [|k'] Hlt.
    + assert (m + 2 * 0 = m)%nat as -> by lia. unfold cell_of, proposal_at.
      simpl. rewrite Hc. congruence.
    + replace (m + 2 * S k')%nat with (S (S m) + 2 * k')%nat by lia.
      apply Hfirst. lia.
  - intros [= <-]. exists 0%nat.
    assert (m + 2 * 0 = m)%nat as -> by lia. split; [done|].
    split; [|intros; lia]. unfold cell_of. simpl. rewrite Hc.
    destruct (decide (c = EMPTY)); [by subst|done].
Qed.

(** A proposal on an [EMPTY] cell is found once enough samples are
    supplied. *)
Lemma gen_new_position_finds f rng k : ∀ m n,
  matrix_ok f → in_range rng → (2 * k + 2 ≤ n)%nat →
  cell_of f (proposal_at rng (m + 2 * k)) = Some EMPTY →
  ∃ pos, fruit_t.gen_new_position (samples_from m n rng) f = Returned pos.
Proof.
  induction k as [|k IH]; intros m n Hok Hr Hn Hk;
    (destruct n as [|[|n]]; [lia..|]);
    rewrite samples_from_step; cbn [fruit_t.gen_new_position].
  - assert (m + 2 * 0 = m)%nat as Hm by lia. rewrite Hm in Hk.
    unfold cell_of, proposal_at in Hk. simpl in Hk. rewrite Hk.
    rewrite bool_decide_eq_false_2 by (by intros ?). eauto.
  - destruct (proj2 (field_read_in_bounds f (proposal_at rng m) Hok)
                (in_range_in_bounds rng m Hr)) as [c Hc].
    unfold cell_of, proposal_at in Hc. simpl in Hc. rewrite Hc.
    case_bool_decide; [|eauto].
    apply IH; [done|done|lia|].
    by replace (S (S m) + 2 * k)%nat with (m + 2 * S k)%nat by lia.
Qed.


Lemma elem_of_all_positions p : p ∈ all_positions ↔ in_bounds p.
Proof.
  unfold all_positions, in_bounds. rewrite list_elem_of_bind. split.
  - intros (i & Hp & Hi). apply list_elem_of_bind in Hp as (j & Hp & Hj).
    apply list_elem_of_singleton in Hp as ->.
    apply elem_of_seqZ in Hi. apply elem_of_seqZ in Hj. simpl. lia.
  - intros [Hi Hj]. exists (pos_i p). split; [|apply elem_of_seqZ; lia].
    apply list_elem_of_bind. exists (pos_j p).
    split; [|apply elem_of_seqZ; lia].
    destruct p. by apply list_elem_of_singleton.
Qed.





(** X22.  On a 10 x 10 matrix and for any sequence of samples in the
    range of the distribution, [gen_new_position] terminates if and only
    if the sequence, read two samples at a time, proposes at some point
    a cell that holds [EMPTY]; it then returns the first such proposal.
    The search is rejection sampling: nothing in it looks for the
    [EMPTY] cells of the matrix. *)
Theorem gen_new_position_terminates_iff (f : list (list cell_type))
    (rng : sample_stream)
    (Hok : matrix_ok f) (Hrange : in_range rng) :
  ((∃ n pos, fruit_t.gen_new_position (prefix n rng) f = Returned pos) ↔
   (∃ k, cell_of f (proposal rng k) = Some EMPTY)) ∧
  (∀ n pos, fruit_t.gen_new_position (prefix n rng) f = Returned pos →
     ∃ k, pos = proposal rng k ∧ cell_of f pos = Some EMPTY ∧
          ∀ k', (k' < k)%nat → cell_of f (proposal rng k') ≠ Some EMPTY).
Proof.
  assert (∀ n pos, fruit_t.gen_new_position (prefix n rng) f = Returned pos →
     ∃ k, pos = proposal rng k ∧ cell_of f pos = Some EMPTY ∧
          ∀ k', (k' < k)%nat → cell_of f (proposal rng k') ≠ Some EMPTY)
    as Hhit.
  { intros n pos (k & -> & Hk & Hfirst)%gen_new_position_hit.
    exists k. rewrite proposal_proposal_at. split; [done|]. split; [done|].
    intros k' Hlt. rewrite proposal_proposal_at. by apply Hfirst. }
  split; [|done]. split.
  - intros (n & pos & (k & -> & Hk & _)%Hhit). eauto.
  - intros (k & Hk). rewrite proposal_proposal_at in Hk.
    destruct (gen_new_position_finds f rng k 0 (2 * k + 2) Hok Hrange
                (le_n _) Hk) as (pos & E).
    exists (2 * k + 2)%nat, pos. done.
Qed.

Lemma gen_new_position_terminates_iff_witness :
  matrix_ok snake_only_field ∧ in_range (λ k, Z.of_nat (k `mod` 8)) ∧
  ∃ n pos, fruit_t.gen_new_position (prefix n (λ k, Z.of_nat (k `mod` 8)))
             snake_only_field = Returned pos.
Proof.
  assert (matrix_ok snake_only_field) as Hok.
  { split; [reflexivity|]. by repeat constructor. }
  assert (in_range (λ k, Z.of_nat (k `mod` 8))) as Hr.
  { intros k. pose proof (Nat.mod_upper_bound k 8). unfold height,
      globals.field_height. lia. }
  split; [done|]. split; [done|].
  apply (proj1 (gen_new_position_terminates_iff snake_only_field _ Hok Hr)).
  exists 0%nat. reflexivity.
Defined.

(** ** C4: what the matrix holds *)

Lemma NoDup_all_positions : NoDup all_positions.
Proof. apply (bool_decide_unpack (NoDup all_positions)). by vm_compute. Qed.

Lemma length_all_positions :
  length all_positions = Z.to_nat (height * width).
Proof. reflexivity. Qed.

(** The rows of the matrix, one after the other, are its cells in the
    order of [all_positions]. *)
Lemma concat_matrix f (g : position_t → cell_type) :
  matrix_ok f →
  (∀ p, in_bounds p → cell_of f p = Some (g p)) →
  concat f = g <$> all_positions.
Proof.
  intros [Hlen Hrows] Hg.
  assert (Forall (λ p, Some (g p) = cell_of f p) all_positions) as Hg'.
  { apply Forall_forall. intros p Hp. symmetry.
    by apply Hg, elem_of_all_positions. }
  clear Hg.
  do 10 (destruct f as [|? f]; [done|]). destruct f; [|done].
  repeat match goal with
         | H : Forall _ (_ :: _) |- _ => apply Forall_cons in H as [? H]
         end.
  repeat match goal with
         | H : length ?r = _ |- _ =>
             do 10 (destruct r as [|? r]; [done|]); destruct r; [|done];
             clear H
         end.
  vm_compute in Hg'.
  repeat match goal with
         | H : Forall _ (_ :: _) |- _ => apply Forall_cons in H as [[= <-] H]
         end.
  reflexivity.
Qed.

Lemma length_filter_fmap {A B} (P : B → Prop) (g : A → B)
    `{!∀ x, Decision (P x)} `{!∀ x, Decision (P (g x))} (l : list A) :
  length (filter P (g <$> l)) = length (filter (λ x, P (g x)) l).
Proof.
  induction l as [|x l IH]; [done|]. csimpl. rewrite !filter_cons.
  repeat case_decide; simpl; try done. by rewrite IH.
Qed.

Lemma length_filter_NoDup (P : position_t → Prop) `{!∀ x, Decision (P x)}
    (l k : list position_t) :
  NoDup l → NoDup k → (∀ x, P x ∧ x ∈ l ↔ x ∈ k) →
  length (filter P l) = length k.
Proof.
  intros Hl Hk HP. apply Permutation_length, NoDup_Permutation.
  - by apply NoDup_filter.
  - done.
  - intros x. rewrite list_elem_of_filter. apply HP.
Qed.

(** Counting the cells that hold [c] is counting the positions at which
    the session expects [c]. *)
Lemma count_cells_expected c s :
  session_inv s →
  count_cells c (field s)
  = length (filter (λ p, expected (m_snake_positions s) (m_position s) p = c)
              all_positions).
Proof.
  intros (_ & Hok & _ & _ & Hf). unfold count_cells.
  rewrite (concat_matrix (field s) _ Hok Hf).
  apply (length_filter_fmap (λ x, x = c)
           (expected (m_snake_positions s) (m_position s))).
Qed.

Lemma count_cells_total (l : list cell_type) :
  (length (filter (λ x, x = EMPTY) l) + length (filter (λ x, x = SNAKE_HEAD) l)
   + length (filter (λ x, x = SNAKE_BODY) l) + length (filter (λ x, x = FRUIT) l)
   + length (filter (λ x, x = ERROR) l) = length l)%nat.
Proof.
  induction l as [|c l IH]; [done|]. rewrite !filter_cons.
  destruct c; simpl; lia.
Qed.

Lemma session_inv_counts s :
  session_inv s →
  count_cells SNAKE_HEAD (field s) = 1%nat ∧
  count_cells SNAKE_BODY (field s) = (length (m_snake_positions s) - 1)%nat ∧
  count_cells FRUIT (field s) = 1%nat ∧
  count_cells ERROR (field s) = 0%nat ∧
  (count_cells EMPTY (field s) + count_cells SNAKE_HEAD (field s)
   + count_cells SNAKE_BODY (field s) + count_cells FRUIT (field s)
   = Z.to_nat (height * width))%nat.
Proof.
  intros Hinv. pose proof Hinv as (Hsn & Hok & Hfb & Hfs & Hf).
  destruct (snake_inv_head _ Hsn) as (h & t & Hs & Hh & Hht).
  pose proof Hsn as (_ & Hnd & Hb & _). rewrite Hs in Hnd, Hb.
  apply NoDup_cons in Hnd as [_ Hndt]. apply Forall_cons in Hb as [_ Hbt].
  rewrite Forall_forall in Hbt.
  assert (count_cells SNAKE_HEAD (field s) = 1%nat) as Hhead.
  { rewrite count_cells_expected by done.
    rewrite (length_filter_NoDup _ all_positions [h]);
      [done|apply NoDup_all_positions|apply NoDup_singleton|].
    intros p. rewrite elem_of_all_positions, list_elem_of_singleton, Hs.
    simpl. repeat case_decide; intuition congruence. }
  assert (count_cells SNAKE_BODY (field s)
          = (length (m_snake_positions s) - 1)%nat) as Hbody.
  { rewrite count_cells_expected by done.
    rewrite (length_filter_NoDup _ all_positions t);
      [rewrite Hs; simpl; lia|apply NoDup_all_positions|done|].
    intros p. rewrite elem_of_all_positions, Hs. pose proof (Hbt p).
    simpl. repeat case_decide; intuition congruence. }
  assert (count_cells FRUIT (field s) = 1%nat) as Hfruit.
  { rewrite count_cells_expected by done.
    rewrite (length_filter_NoDup _ all_positions [m_position s]);
      [done|apply NoDup_all_positions|apply NoDup_singleton|].
    intros p. rewrite elem_of_all_positions, list_elem_of_singleton, Hs.
    rewrite Hs in Hfs. apply not_elem_of_cons in Hfs as [? ?].
    simpl. repeat case_decide; intuition congruence. }
  assert (count_cells ERROR (field s) = 0%nat) as Herr.
  { rewrite count_cells_expected by done.
    rewrite (length_filter_NoDup _ all_positions []);
      [done|apply NoDup_all_positions|apply NoDup_nil_2|].
    intros p. rewrite elem_of_nil, Hs.
    simpl. repeat case_decide; intuition congruence. }
  do 4 (split; [done|]).
  pose proof (count_cells_total (concat (field s))) as Htot.
  fold (count_cells EMPTY (field s)) in Htot.
  fold (count_cells SNAKE_HEAD (field s)) in Htot.
  fold (count_cells SNAKE_BODY (field s)) in Htot.
  fold (count_cells FRUIT (field s)) in Htot.
  fold (count_cells ERROR (field s)) in Htot.
  rewrite Herr in Htot.
  rewrite (concat_matrix (field s) _ Hok Hf), length_fmap,
    length_all_positions in Htot.
  lia.
Qed.

(** C4.  In every running session the loop can reach, the matrix holds
    exactly one [SNAKE_HEAD] cell, exactly as many [SNAKE_BODY] cells as
    the snake has positions after its head, at most one [FRUIT] cell
    (exactly one, between two passes), and [EMPTY] in all the remaining
    cells of the 10 x 10 grid. *)
Theorem grid_cell_counts (s : session)
    (Hreach : reachable s) (Hrun : Running s) :
  count_cells SNAKE_HEAD (field s) = 1%nat ∧
  count_cells SNAKE_BODY (field s) = (length (m_snake_positions s) - 1)%nat ∧
  (count_cells FRUIT (field s) ≤ 1)%nat ∧
  (count_cells EMPTY (field s)
   = Z.to_nat (height * width) - count_cells SNAKE_HEAD (field s)
     - count_cells SNAKE_BODY (field s) - count_cells FRUIT (field s))%nat ∧
  count_cells FRUIT (field s) = 1%nat.
Proof.
  destruct (session_inv_counts s (reachable_session_inv s Hreach))
    as (Hh & Hb & Hf & _ & Htot).
  split; [done|]. split; [done|]. split; [lia|]. split; [lia|done].
Qed.

Lemma grid_cell_counts_witness :
  reachable top_row_session ∧ Running top_row_session ∧
  count_cells SNAKE_HEAD (field top_row_session) = 1%nat ∧
  count_cells SNAKE_BODY (field top_row_session) = 0%nat ∧
  count_cells EMPTY (field top_row_session) = 98%nat.
Proof.
  assert (Running top_row_session) as Hrun by (by vm_compute).
  split; [apply top_row_session_reachable|]. split; [done|].
  destruct (grid_cell_counts top_row_session top_row_session_reachable Hrun)
    as (Hh & Hb & _ & He & Hf).
  split; [done|]. split; [done|]. rewrite He, Hh, Hb, Hf. reflexivity.
Defined.

(** * Further properties of the program *)

(** ** The checked accessor *)

(** X1.  On a 10 x 10 matrix [at] never reads outside the arrays: inside
    the grid it returns what [operator()] returns, outside it returns
    [ERROR] where [operator()] has no defined result.  (Its test compares
    the row with [width] and the column with [height]; the two are
    equal.) *)
Theorem field_at_checked (f : list (list cell_type)) (i j : Z)
    (Hok : matrix_ok f) :
  is_Some (field_at f i j) ∧
  (in_bounds (mk_position i j) → field_at f i j = field_read f i j) ∧
  (¬ in_bounds (mk_position i j) →
   field_at f i j = Some ERROR ∧ field_read f i j = None).
Proof.
  pose proof (field_read_in_bounds f (mk_position i j) Hok) as Hb.
  unfold cell_of in Hb. simpl in Hb.
  assert (in_bounds (mk_position i j)
          ↔ ¬ (i >= width ∨ i < 0 ∨ j >= height ∨ j < 0)) as Hin.
  { unfold in_bounds, width, height, globals.field_width,
      globals.field_height. simpl. lia. }
  unfold field_at. split; [|split].
  - case_decide; [eauto|]. apply Hb, Hin. done.
  - intros Hp. rewrite decide_False; [done|]. by apply Hin.
  - intros Hp. rewrite decide_True.
    + split; [done|]. destruct (field_read f i j) eqn:E; [|done].
      exfalso. apply Hp, Hb. eauto.
    + destruct (decide (i >= width ∨ i < 0 ∨ j >= height ∨ j < 0)); [done|].
      exfalso. by apply Hp, Hin.
Qed.

Lemma field_at_checked_witness :
  matrix_ok snake_only_field ∧
  field_at snake_only_field 4 4 = Some SNAKE_HEAD ∧
  field_at snake_only_field 4 10 = Some ERROR ∧
  field_read snake_only_field 4 10 = None.
Proof.
  assert (matrix_ok snake_only_field) as Hok.
  { split; [reflexivity|]. by repeat constructor. }
  split; [done|].
  destruct (field_at_checked snake_only_field 4 10 Hok) as (_ & _ & Hout).
  split; [reflexivity|]. apply Hout.
  unfold in_bounds, width, globals.field_width. simpl. lia.
Defined.

(** ** Lengths after a step *)

Lemma assign_cell_positions p c s s' :
  assign_cell p c s = Returned s' →
  m_snake_positions s' = m_snake_positions s.
Proof. unfold assign_cell. destruct field_write; [|done]. by intros [= <-]. Qed.

Lemma mark_body_positions l : ∀ s s',
  snake_t.mark_body l s = Returned s' →
  m_snake_positions s' = m_snake_positions s.
Proof.
  induction l as [|p l IH]; intros s s'; simpl.
  - by intros [= <-].
  - intros (s1 & E1 & E2)%and_then_Returned.
    apply assign_cell_positions in E1. apply IH in E2. congruence.
Qed.

Lemma snake_update_field_positions s s' :
  snake_t.update_field s = Returned s' →
  m_snake_positions s' = m_snake_positions s.
Proof.
  unfold snake_t.update_field. destruct (m_snake_positions s) eqn:Hs; [done|].
  intros (s1 & E1 & E2)%and_then_Returned.
  apply assign_cell_positions in E1. apply mark_body_positions in E2.
  congruence.
Qed.

Lemma lengthen_positions d s s' :
  lengthen d s = Returned s' →
  ∃ h, snake_t.get_head_position s = Some h ∧
       m_snake_positions s' = ahead d h :: m_snake_positions s.
Proof.
  rewrite lengthen_unfold.
  unfold snake_t.lengthen_snake, snake_t.get_head_position.
  destruct (head (m_snake_positions s)) as [h|]; [|done].
  destruct (at_edge d h); [done|].
  destruct (snake_t.is_space_for_snake s (ahead d h)) as [[|]|]; [|done..].
  intros E%snake_update_field_positions. eauto.
Qed.

Lemma pop_back_positions s s' :
  snake_t.pop_back_snake_body s = Returned s' →
  m_snake_positions s' = removelast (m_snake_positions s).
Proof.
  unfold snake_t.pop_back_snake_body.
  destruct (last (m_snake_positions s)); [|done].
  intros (s1 & E1 & [= <-])%and_then_Returned.
  apply assign_cell_positions in E1. simpl. by rewrite E1.
Qed.

Lemma move_positions d s s' :
  move d s = Returned s' →
  ∃ h, snake_t.get_head_position s = Some h ∧
       m_snake_positions s' = ahead d h :: removelast (m_snake_positions s) ∧
       length (m_snake_positions s') = length (m_snake_positions s).
Proof.
  rewrite move_unfold. intros (s1 & E1 & E2)%and_then_Returned.
  apply lengthen_positions in E1 as (h & Hh & Hs1).
  apply pop_back_positions in E2. rewrite Hs1 in E2. exists h.
  split; [done|]. unfold snake_t.get_head_position in Hh.
  destruct (exists_last (l:=m_snake_positions s)) as (l & p & Hl).
  { intros H0. by rewrite H0 in Hh. }
  rewrite Hl in E2 |- *.
  change (ahead d h :: l ++ [p]) with ((ahead d h :: l) ++ [p]) in E2.
  rewrite removelast_last in E2 |- *. split; [done|].
  rewrite E2, length_app. simpl. lia.
Qed.

(** X2.  Whenever a growth operation [lengthen_snake_d] returns, the
    sequence is the old one with the head plus the offset of [d] put in
    front: the snake is exactly one position longer.  Whenever a movement
    operation [move_d] returns, the new head is the old head plus the
    offset, the last position is gone, and the length is what it was.
    Nothing is assumed about the session. *)
Theorem step_lengths (d : direction_type) (s s' : session) :
  (lengthen d s = Returned s' →
   ∃ h, snake_t.get_head_position s = Some h ∧
        m_snake_positions s' = ahead d h :: m_snake_positions s ∧
        snake_t.get_length s' = snake_t.get_length s + 1) ∧
  (move d s = Returned s' →
   ∃ h, snake_t.get_head_position s = Some h ∧
        m_snake_positions s' = ahead d h :: removelast (m_snake_positions s) ∧
        snake_t.get_length s' = snake_t.get_length s).
Proof.
  split.
  - intros (h & Hh & Hs)%lengthen_positions. exists h.
    split; [done|]. split; [done|].
    unfold snake_t.get_length. rewrite Hs. simpl. lia.
  - intros (h & Hh & Hs & Hlen)%move_positions. exists h.
    split; [done|]. split; [done|].
    unfold snake_t.get_length. by rewrite Hlen.
Qed.

Lemma step_lengths_witness :
  ∃ s1 s2,
    lengthen UP start_session = Returned s1 ∧
    snake_t.get_length s1 = 2 ∧
    move LEFT start_session = Returned s2 ∧
    snake_t.get_length s2 = 1 ∧
    snake_t.get_head_position s2 = Some (mk_position 4 3).
Proof.
  destruct (lengthen UP start_session) as [s1| | |] eqn:E1;
    [|by vm_compute in E1..].
  destruct (move LEFT start_session) as [s2| | |] eqn:E2;
    [|by vm_compute in E2..].
  exists s1, s2. split; [done|].
  destruct (proj1 (step_lengths UP start_session s1) E1) as (h & _ & _ & Hlen).
  destruct (proj2 (step_lengths LEFT start_session s2) E2)
    as (h' & Hh' & Hs2 & Hlen').
  split; [by rewrite Hlen|]. split; [done|]. split; [by rewrite Hlen'|].
  unfold snake_t.get_head_position. rewrite Hs2.
  injection Hh' as <-. reflexivity.
Defined.

(** ** The timer of the loop *)

Lemma poll_events_controls pending s :
  m_direction (event_t.poll_events pending s) = m_direction s ∧
  m_game_running (event_t.poll_events pending s) = m_game_running s ∧
  m_score (event_t.poll_events pending s) = m_score s ∧
  waited_time (event_t.poll_events pending s) = waited_time s.
Proof.
  unfold event_t.poll_events. revert s.
  induction pending as [|e pending IH]; intros s; [done|]. simpl.
  destruct (IH (event_t.handle_event e s)) as (-> & -> & -> & ->).
  by destruct e.
Qed.

(** X3.  A pass of the loop in which the accumulated time stays below
    160 ms always returns, and it only records the time and the polled
    events: matrix, snake, fruit, heading, running flag and score are
    what they were. *)
Theorem idle_pass_changes_nothing (fr : frame) (s : session)
    (Hidle : waited_time s + elapsed_time fr < globals.max_wait_time_ms) :
  loop_body fr s = Returned (polled fr s) ∧
  same_world s (polled fr s) ∧
  m_direction (polled fr s) = m_direction s ∧
  m_game_running (polled fr s) = m_game_running s ∧
  m_score (polled fr s) = m_score s ∧
  waited_time (polled fr s) = waited_time s + elapsed_time fr.
Proof.
  destruct (poll_events_controls (pending fr)
              (set_waited_time (waited_time s + elapsed_time fr) s))
    as (Hd & Hr & Hsc & Hw).
  fold (polled fr s) in Hd, Hr, Hsc, Hw. simpl in *.
  split; [|by auto using polled_same_world].
  unfold loop_body. fold (polled fr s). rewrite decide_False; [done|].
  rewrite Hw. lia.
Qed.

Lemma idle_pass_changes_nothing_witness :
  waited_time start_session + elapsed_time (mk_frame 100 [SDL_KEYDOWN 80] [])
  < globals.max_wait_time_ms ∧
  ∃ s', loop_body (mk_frame 100 [SDL_KEYDOWN 80] []) start_session
        = Returned s' ∧
        same_world start_session s' ∧ m_direction s' = UP ∧
        waited_time s' = 100.
Proof.
  assert (waited_time start_session
          + elapsed_time (mk_frame 100 [SDL_KEYDOWN 80] [])
          < globals.max_wait_time_ms) as Hidle by (by vm_compute).
  split; [done|].
  destruct (idle_pass_changes_nothing _ start_session Hidle)
    as (E & Hw & Hd & _ & _ & Ht).
  eexists. split; [exact E|]. split; [done|]. split; [by rewrite Hd|].
  by rewrite Ht.
Defined.

Lemma setup_waited_time fruit_samples s :
  setup fruit_samples = Returned s → waited_time s = 0.
Proof.
  unfold setup. intros (s0 & E0 & E1)%and_then_Returned.
  apply new_position_keeps_controls in E1 as (_ & _ & _ & _ & _ & ->).
  unfold snake_t.construct in E0.
  apply and_then_Returned in E0 as (sa & [= <-] & E0).
  by apply snake_update_field_keeps_controls in E0 as (_ & _ & _ & _ & _ & ->).
Qed.

(** X4.  Whenever the loop tests its condition, the accumulated time is
    below the 160 ms threshold: a pass that reaches it runs the tick and
    sets the time back to 0. *)
Theorem timer_below_threshold (s : session) (Hreach : reachable s) :
  waited_time s < globals.max_wait_time_ms.
Proof.
  induction Hreach as [samples s E|fr s s' _ _ _ _ E].
  - rewrite (setup_waited_time _ _ E). done.
  - unfold loop_body in E. case_decide as Hd.
    + apply tick_Returned in E as (s1 & _ & ->). done.
    + injection E as <-. lia.
Qed.

Lemma timer_below_threshold_witness :
  reachable top_row_session ∧ waited_time top_row_session < 160.
Proof.
  split; [apply top_row_session_reachable|].
  apply (timer_below_threshold top_row_session top_row_session_reachable).
Defined.

(** ** Keys, headings and the neck of the snake *)

Lemma handle_key_direction s :
  m_direction (handle_key s)
  = match arrow_direction (event_t.get_key s) with
    | Some d => if decide (d = opposite (m_direction s))
                then m_direction s else d
    | None => m_direction s
    end.
Proof.
  unfold handle_key, arrow_direction.
  repeat case_decide; try done; destruct (m_direction s); simpl in *; done.
Qed.

Lemma handle_key_not_reverse s :
  m_direction (handle_key s) ≠ opposite (m_direction s).
Proof.
  rewrite handle_key_direction.
  destruct (arrow_direction (event_t.get_key s)) as [d|].
  - case_decide; [|done]. by destruct (m_direction s).
  - by destruct (m_direction s).
Qed.

Lemma ahead_opposite d h : ahead (opposite d) (ahead d h) = h.
Proof. destruct h, d; simpl; f_equal; lia. Qed.

Lemma ahead_inj d1 d2 h : ahead d1 h = ahead d2 h → d1 = d2.
Proof. destruct h, d1, d2; simpl; intros [=]; try done; lia. Qed.

Lemma setup_positions fruit_samples s :
  setup fruit_samples = Returned s →
  m_snake_positions s = [mk_position 4 4].
Proof.
  unfold setup. intros (s0 & E0 & E1)%and_then_Returned.
  apply new_position_Returned in E1 as (_ & _ & Hs & _). rewrite Hs.
  unfold snake_t.construct in E0.
  apply and_then_Returned in E0 as (sa & [= <-] & E0).
  apply snake_update_field_positions in E0. by rewrite E0.
Qed.

Lemma new_position_positions samples s s' :
  fruit_t.new_position samples s = Returned s' →
  m_snake_positions s' = m_snake_positions s.
Proof. by intros (_ & _ & ? & _)%new_position_Returned. Qed.

(** After a step that returned, the old head lies behind the new one. *)
Lemma handle_movement_neck_behind samples s s' :
  handle_movement samples s = Returned s' →
  m_game_running s' = true →
  neck_behind s'.
Proof.
  intros [[_ ->]|[Hc Hstep]]%handle_movement_shape; [done|]. intros _.
  destruct Hc as (_ & _ & Hd & _). unfold neck_behind. rewrite Hd.
  destruct Hstep as [E|(s1 & E1 & E2)].
  - apply move_positions in E as (h & Hh & -> & _).
    unfold snake_t.get_head_position in Hh.
    destruct (m_snake_positions s) as [|h0 [|n t]]; [done..|].
    injection Hh as ->. simpl. by rewrite ahead_opposite.
  - apply lengthen_positions in E1 as (h & Hh & Hs1).
    apply new_position_positions in E2. rewrite E2, Hs1.
    unfold snake_t.get_head_position in Hh.
    destruct (m_snake_positions s) as [|h0 t]; [done|].
    injection Hh as ->. by rewrite ahead_opposite.
Qed.

Lemma reachable_neck_behind s :
  reachable s → m_game_running s = true → neck_behind s.
Proof.
  induction 1 as [samples s E|fr s s' _ IH Hr _ E]; intros Hrun.
  - unfold neck_behind. by rewrite (setup_positions _ _ E).
  - unfold loop_body in E. fold (polled fr s) in E. case_decide as Hd.
    + apply tick_Returned in E as (s1 & E & ->).
      apply handle_movement_neck_behind in E; done.
    + injection E as <-.
      destruct (polled_same_world fr s) as (_ & Hl & _).
      destruct (poll_events_controls (pending fr)
                  (set_waited_time (waited_time s + elapsed_time fr) s))
        as (Hdir & _).
      fold (polled fr s) in Hdir. simpl in Hdir.
      unfold neck_behind. rewrite Hl, Hdir. by apply IH.
Qed.

(** X5.  In a running session the loop can reach, whatever keys were
    pressed, the position the snake tries to enter in the next tick is
    never its own second position: the heading a tick uses is never the
    reverse of the direction of the previous step. *)
Theorem never_turns_into_neck (fr : frame) (s : session)
    (h n : position_t) (rest : list position_t)
    (Hreach : reachable s) (Hrun : Running s)
    (Hsnake : m_snake_positions s = h :: n :: rest) :
  n = ahead (opposite (m_direction s)) h ∧
  m_direction (handle_key (polled fr s)) ≠ opposite (m_direction s) ∧
  ahead (m_direction (handle_key (polled fr s))) h ≠ n.
Proof.
  destruct Hrun as [Hrun _].
  pose proof (reachable_neck_behind s Hreach Hrun) as Hneck.
  unfold neck_behind in Hneck. rewrite Hsnake in Hneck.
  destruct (poll_events_controls (pending fr)
              (set_waited_time (waited_time s + elapsed_time fr) s))
    as (Hdir & _).
  fold (polled fr s) in Hdir. simpl in Hdir.
  pose proof (handle_key_not_reverse (polled fr s)) as Hnr.
  rewrite Hdir in Hnr. split; [done|]. split; [done|].
  rewrite Hneck. by intros ?%ahead_inj.
Qed.

Lemma grown_session_reachable : reachable grown_session.
Proof.
  apply (passes_reachable [quiet_frame] start_session).
  - apply start_session_reachable.
  - vm_compute. reflexivity.
Qed.

Lemma never_turns_into_neck_witness :
  reachable grown_session ∧ Running grown_session ∧
  m_snake_positions grown_session = [mk_position 3 4; mk_position 4 4] ∧
  m_direction (handle_key (polled (mk_frame 160 [SDL_KEYDOWN SDL_SCANCODE_DOWN]
                                     []) grown_session)) = UP ∧
  ahead (m_direction
           (handle_key (polled (mk_frame 160 [SDL_KEYDOWN SDL_SCANCODE_DOWN]
                                  []) grown_session)))
    (mk_position 3 4) ≠ mk_position 4 4.
Proof.
  assert (Running grown_session) as Hrun by (by vm_compute).
  split; [apply grown_session_reachable|]. split; [done|].
  split; [reflexivity|]. split; [reflexivity|].
  apply (never_turns_into_neck _ grown_session (mk_position 3 4)
           (mk_position 4 4) [] grown_session_reachable Hrun eq_refl).
Defined.

(** ** What polling keeps of the events *)

Lemma last_keydown_cons e pending :
  last_keydown (e :: pending)
  = match last_keydown pending with
    | Some k => Some k
    | None => match e with SDL_KEYDOWN k => Some k | _ => None end
    end.
Proof.
  unfold last_keydown. destruct e; simpl; try by destruct (last _).
  rewrite last_cons. by destruct (last _).
Qed.

(** X6.  After [poll_events] the key reported by the session is the one
    of the last key-down event polled (the one it had before when there
    was none): of several keys pressed between two ticks only the last
    one counts.  The quit flag is set exactly when it was set before or a
    quit event was polled; polling never clears it. *)
Theorem poll_events_keeps_last_key (pending : list SDL_Event) (s : session) :
  m_last_pressed_key (event_t.poll_events pending s)
  = default (m_last_pressed_key s) (last_keydown pending) ∧
  m_quit (event_t.poll_events pending s)
  = m_quit s || bool_decide (SDL_QUIT ∈ pending).
Proof.
  unfold event_t.poll_events. revert s.
  induction pending as [|e pending IH]; intros s.
  - split; [done|]. simpl. by destruct (m_quit s).
  - assert (bool_decide (SDL_QUIT ∈ e :: pending)
            = bool_decide (SDL_QUIT = e) || bool_decide (SDL_QUIT ∈ pending))
      as Hq.
    { rewrite <- bool_decide_or. apply bool_decide_ext, elem_of_cons. }
    rewrite Hq, last_keydown_cons. cbn [foldl].
    destruct (IH (event_t.handle_event e s)) as [-> ->].
    generalize (bool_decide (SDL_QUIT ∈ pending)). intros b. split.
    + destruct (last_keydown pending); [done|]. by destruct e.
    + destruct e; simpl; try done.
      by rewrite orb_true_r.
Qed.

(** ** Closing the window *)

Lemma poll_events_quit_sticky pending : ∀ s,
  m_quit s = true → m_quit (event_t.poll_events pending s) = true.
Proof.
  unfold event_t.poll_events.
  induction pending as [|e pending IH]; intros s Hq; [done|]. simpl.
  apply IH. by destruct e.
Qed.

Lemma poll_events_quit pending : ∀ s,
  SDL_QUIT ∈ pending → m_quit (event_t.poll_events pending s) = true.
Proof.
  induction pending as [|e pending IH]; intros s; [by intros ?%elem_of_nil|].
  intros [<-|Hin]%elem_of_cons.
  - by apply (poll_events_quit_sticky pending (set_quit true s)).
  - by apply (IH (event_t.handle_event e s)).
Qed.

Lemma handle_movement_keeps_quit samples s s' :
  handle_movement samples s = Returned s' → m_quit s' = m_quit s.
Proof.
  intros [[_ ->]|[Hc _]]%handle_movement_shape; [done|].
  by destruct Hc as (_ & _ & _ & _ & ? & _).
Qed.

Lemma handle_key_keeps_quit s : m_quit (handle_key s) = m_quit s.
Proof. unfold handle_key. by repeat case_decide. Qed.

Lemma while_loop_quit frames s :
  m_quit s = true →
  (while_loop frames ;> report_score) s
  = Returned (set_score (snake_t.get_length s) s).
Proof.
  intros Hq. unfold and_then, event_t.quit.
  destruct frames; simpl; unfold event_t.quit; rewrite Hq;
    by rewrite andb_false_r.
Qed.

(** X7.  When a quit event (the window being closed) is among the events
    polled by a pass, the quit flag is set when the pass returns, the loop
    is left right after that pass, and the score reported is the length
    of the snake at that point.  If no tick was due in the pass, nothing
    has moved and the score is the length the snake had before. *)
Theorem window_close_ends_loop (fr : frame) (rest : list frame)
    (s s' : session)
    (Hrun : Running s) (Hquit : SDL_QUIT ∈ pending fr)
    (Hpass : loop_body fr s = Returned s') :
  event_t.quit s' = true ∧
  (while_loop (fr :: rest) ;> report_score) s
  = Returned (set_score (snake_t.get_length s') s') ∧
  (¬ tick_due fr s →
   same_world s s' ∧ snake_t.get_length s' = snake_t.get_length s).
Proof.
  assert (m_quit (polled fr s) = true) as Hq2
    by (by apply poll_events_quit).
  assert (m_quit s' = true) as Hq'.
  { unfold loop_body in Hpass. fold (polled fr s) in Hpass.
    case_decide; [|by injection Hpass as <-].
    apply tick_Returned in Hpass as (s1 & E & ->).
    apply handle_movement_keeps_quit in E. simpl.
    by rewrite E, handle_key_keeps_quit. }
  split; [done|]. split.
  - rewrite while_loop_step by done. unfold and_then at 1. rewrite Hpass.
    by apply while_loop_quit.
  - intros Hidle. unfold loop_body in Hpass. fold (polled fr s) in Hpass.
    rewrite decide_False in Hpass by done. injection Hpass as <-.
    pose proof (polled_same_world fr s) as Hw. split; [done|].
    unfold snake_t.get_length. by destruct Hw as (_ & -> & _).
Qed.

Lemma window_close_ends_loop_witness :
  Running start_session ∧
  ∃ s', loop_body (mk_frame 20 [SDL_QUIT] []) start_session
        = Returned s' ∧
        event_t.quit s' = true ∧
        (while_loop [mk_frame 20 [SDL_QUIT] []; quiet_frame]
         ;> report_score) start_session
        = Returned (set_score (snake_t.get_length s') s') ∧
        snake_t.get_length s' = 1.
Proof.
  assert (Running start_session) as Hrun by (by vm_compute).
  split; [done|].
  destruct (loop_body (mk_frame 20 [SDL_QUIT] []) start_session)
    as [s'| | |] eqn:E; [|by vm_compute in E..].
  exists s'. split; [done|].
  destruct (window_close_ends_loop (mk_frame 20 [SDL_QUIT] [])
              [quiet_frame] start_session s' Hrun) as (Hq & Hloop & Hidle);
    [apply elem_of_cons; by left|done|].
  split; [done|]. split; [done|].
  destruct Hidle as [_ ->]; [|reflexivity].
  unfold tick_due. vm_compute. by intros H; apply H.
Defined.

(** ** The score of a session *)

Lemma handle_movement_length samples s s' :
  handle_movement samples s = Returned s' →
  (length (m_snake_positions s) ≤ length (m_snake_positions s')
   ≤ length (m_snake_positions s) + 1)%nat.
Proof.
  intros [[_ ->]|[_ [E|(s1 & E1 & E2)]]]%handle_movement_shape.
  - simpl. lia.
  - apply move_positions in E as (_ & _ & _ & ->). lia.
  - apply lengthen_positions in E1 as (h & _ & Hs1).
    apply new_position_positions in E2. rewrite E2, Hs1. simpl. lia.
Qed.

Lemma loop_body_length fr s s' :
  loop_body fr s = Returned s' →
  (length (m_snake_positions s) ≤ length (m_snake_positions s')
   ≤ length (m_snake_positions s) + 1)%nat.
Proof.
  unfold loop_body. fold (polled fr s).
  destruct (polled_same_world fr s) as (_ & Hl & _).
  case_decide.
  - intros (s1 & E & ->)%tick_Returned.
    apply handle_movement_length in E.
    destruct (handle_key_same_world (polled fr s)) as (_ & Hl' & _).
    rewrite Hl', Hl in E. done.
  - intros [= <-]. rewrite Hl. lia.
Qed.

Lemma while_loop_length frames : ∀ s s',
  while_loop frames s = Returned s' →
  (length (m_snake_positions s) ≤ length (m_snake_positions s')
   ≤ length (m_snake_positions s) + length frames)%nat.
Proof.
  induction frames as [|fr rest IH]; intros s s'; simpl.
  - destruct (m_game_running s && negb (event_t.quit s)); [done|].
    intros [= <-]. lia.
  - destruct (m_game_running s && negb (event_t.quit s));
      [|intros [= <-]; lia].
    intros (s1 & E1 & E2)%and_then_Returned.
    apply loop_body_length in E1. apply IH in E2. lia.
Qed.

Lemma while_loop_reachable frames : ∀ s s',
  reachable s → while_loop frames s = Returned s' → reachable s'.
Proof.
  induction frames as [|fr rest IH]; intros s s' Hs; simpl.
  - destruct (m_game_running s && negb (event_t.quit s)); [done|].
    by intros [= <-].
  - destruct (m_game_running s) eqn:Hr; [|by intros [= <-]].
    destruct (event_t.quit s) eqn:Hq; [by intros [= <-]|]. simpl.
    intros (s1 & E1 & E2)%and_then_Returned.
    apply (IH s1); [|done]. by apply (reach_pass fr s).
Qed.

(** The snake and the fruit never take more than the 100 cells. *)
Lemma session_inv_length s :
  session_inv s → (1 ≤ length (m_snake_positions s) ≤ 99)%nat.
Proof.
  intros ((Hlen & Hnd & Hb & _) & _ & Hfb & Hfs & _). split; [done|].
  assert (m_position s :: m_snake_positions s ⊆+ all_positions) as Hsub.
  { apply NoDup_submseteq; [by apply NoDup_cons|].
    intros p [->|Hp]%elem_of_cons; apply elem_of_all_positions; [done|].
    rewrite Forall_forall in Hb. by apply Hb. }
  apply submseteq_length in Hsub. rewrite length_all_positions in Hsub.
  simpl in Hsub. unfold height, width, globals.field_height,
    globals.field_width in Hsub. lia.
Qed.

(** The passes a returning loop has made: the first [n] of those
    supplied, the loop condition true before each of them and false
    after the last; the snake is at most [n] positions longer. *)
Lemma while_loop_passes frames : ∀ s s',
  while_loop frames s = Returned s' →
  ∃ n, (n ≤ length frames)%nat ∧
       passes (take n frames) s = Some s' ∧
       m_game_running s' && negb (event_t.quit s') = false ∧
       (length (m_snake_positions s') ≤ length (m_snake_positions s) + n)%nat.
Proof.
  induction frames as [|fr rest IH]; intros s s'; simpl.
  - destruct (m_game_running s && negb (event_t.quit s)) eqn:Hc; [done|].
    intros [= <-]. exists 0%nat. simpl. repeat split; [lia|done|lia].
  - destruct (m_game_running s && negb (event_t.quit s)) eqn:Hc.
    + intros (s1 & E1 & E2)%and_then_Returned.
      destruct (IH _ _ E2) as (n & Hn & Hp & Hstop & Hlen).
      exists (S n). simpl. rewrite Hc, E1.
      apply loop_body_length in E1.
      repeat split; [lia|done|done|lia].
    + intros [= <-]. exists 0%nat. simpl. repeat split; [lia|done|lia].
Qed.

(** X8.  Whenever [game_loop] returns, the score it leaves is the length
    of the snake, it lies between 1 and 99 (the fruit always holds one of
    the 100 cells), and it is at most one more than the number of passes
    the loop made, however many more were supplied: the snake grows by
    at most one position per pass and never shrinks.  The passes made are
    the first [n] of [frames], the loop condition holding before each of
    them and failing after the last. *)
Theorem score_bounds (fruit_samples : list Z) (frames : list frame)
    (s : session)
    (Hgame : game_loop fruit_samples frames = Returned s) :
  get_score s = snake_t.get_length s ∧
  1 ≤ get_score s ≤ 99 ∧
  ∃ s0 s1 n,
    setup fruit_samples = Returned s0 ∧
    (n ≤ length frames)%nat ∧
    passes (take n frames) s0 = Some s1 ∧
    m_game_running s1 && negb (event_t.quit s1) = false ∧
    s = set_score (snake_t.get_length s1) s1 ∧
    get_score s ≤ 1 + Z.of_nat n.
Proof.
  unfold game_loop in Hgame.
  assert (∃ s0 s1, setup fruit_samples = Returned s0 ∧
                   while_loop frames s0 = Returned s1 ∧
                   s = set_score (snake_t.get_length s1) s1)
    as (s0 & s1 & E0 & E1 & ->).
  { apply and_then_Returned in Hgame as (sa & Ea & Hgame).
    apply and_then_Returned in Hgame as (s0 & Eb & Hgame).
    apply and_then_Returned in Hgame as (s1 & E1 & Hgame).
    injection Hgame as <-. exists s0, s1. split; [|done].
    unfold setup. apply and_then_Returned. eauto. }
  split; [done|]. unfold get_score, snake_t.get_length. simpl.
  pose proof (reach_setup _ _ E0) as Hr0.
  pose proof (while_loop_reachable _ _ _ Hr0 E1) as Hr1.
  pose proof (session_inv_length _ (reachable_session_inv _ Hr1)) as Hb.
  destruct (while_loop_passes _ _ _ E1) as (n & Hn & Hp & Hstop & Hl).
  rewrite (setup_positions _ _ E0) in Hl. simpl in Hl.
  split; [lia|]. exists s0, s1, n. repeat split; [done..|lia].
Qed.

Lemma score_bounds_witness :
  ∃ s, game_loop [3; 4] (escape_frame :: replicate 50 quiet_frame)
       = Returned s ∧
       get_score s = 2 ∧
       ∃ s1, passes [escape_frame] start_session = Some s1 ∧
             m_game_running s1 = false ∧
             s = set_score (snake_t.get_length s1) s1 ∧
             get_score s ≤ 1 + 1.
Proof.
  destruct (game_loop [3; 4] (escape_frame :: replicate 50 quiet_frame))
    as [s| | |] eqn:E; [|by vm_compute in E..].
  exists s.
  destruct (score_bounds [3; 4] (escape_frame :: replicate 50 quiet_frame)
              s E) as (_ & _ & s0 & s1 & n & E0 & _ & Hp & Hstop & Hs & Hle).
  split; [done|]. split; [vm_compute in E; by injection E as <-|].
  vm_compute in E0. injection E0 as <-. fold start_session in Hp.
  destruct n as [|[|n]].
  - simpl in Hp. injection Hp as <-. by vm_compute in Hstop.
  - exists s1. repeat split; [done| |done..].
    vm_compute in Hp. by injection Hp as <-.
  - exfalso. change (take (S (S n)) (escape_frame :: replicate 50 quiet_frame))
      with (escape_frame :: quiet_frame :: take n (replicate 49 quiet_frame))
      in Hp.
    by vm_compute in Hp.
Defined.

(** ** The three ways a tick can go *)

Lemma handle_movement_outcomes samples s s' h :
  session_inv s → snake_t.get_head_position s = Some h →
  handle_movement samples s = Returned s' →
  (blocked s (ahead (m_direction s) h) ∧ s' = set_game_running false s) ∨
  (cell_of (field s) (ahead (m_direction s) h) = Some EMPTY ∧
   m_snake_positions s'
   = ahead (m_direction s) h :: removelast (m_snake_positions s) ∧
   m_position s' = m_position s ∧
   m_game_running s' = m_game_running s) ∨
  (ahead (m_direction s) h = m_position s ∧
   m_snake_positions s' = ahead (m_direction s) h :: m_snake_positions s ∧
   m_position s' ≠ m_position s ∧
   cell_of (field s) (m_position s') = Some EMPTY ∧
   m_game_running s' = m_game_running s).
Proof.
  intros Hinv Hh E. unfold snake_t.get_head_position in Hh.
  pose proof (session_inv_snake_on_grid s Hinv) as Hgrid.
  pose proof Hinv as (Hsn & Hok & Hfb & Hfs & Hf).
  set (n := ahead (m_direction s) h).
  destruct (handle_movement_Returned _ _ _ Hinv E)
    as [[Et ->]|[[Hq Hm]|(Hq & s1 & E1 & E2)]].
  - left. split; [|done].
    destruct (snake_inv_head _ Hsn) as (h' & t & Hs & _).
    rewrite Hs in Hh. injection Hh as ->.
    pose proof Hsn as (_ & _ & Hb & _). rewrite Hs in Hb.
    destruct (lengthen_cases (m_direction s) s h t Hs Hok Hb)
      as [[Hn _]|[(_ & (c & Hc & Hce & Hcf) & _)|(_ & _ & f' & E' & _)]].
    + by left.
    + right. fold n in Hc. rewrite Hc.
      pose proof (session_inv_stores_no_error s Hinv n) as Hne.
      rewrite Hc in Hne. destruct c; auto; done.
    + congruence.
  - right. left.
    destruct (move_preserves _ _ _ Hsn Hgrid Hm)
      as (h' & s1 & Hh' & E1 & _ & Hs' & Hp' & _).
    rewrite Hh in Hh'. injection Hh' as <-.
    destruct (lengthen_preserves _ _ _ Hsn Hgrid E1)
      as (h' & Hh' & _ & _ & _ & _ & (c & Hc & Hcc) & _).
    rewrite Hh in Hh'. injection Hh' as <-. fold n in Hc.
    destruct (is_fruit_in_direction_Some s h false Hh Hq) as (c' & Hc' & Hb).
    fold n in Hc'. rewrite Hc in Hc'. injection Hc' as <-.
    symmetry in Hb. apply bool_decide_eq_false in Hb.
    destruct Hcc as [-> | ->]; [|done].
    destruct (move_positions _ _ _ Hm) as (h' & Hh' & Hs'' & _).
    unfold snake_t.get_head_position in Hh'.
    rewrite Hh in Hh'. injection Hh' as <-. fold n in Hs''.
    split; [done|]. split; [done|]. split; [done|].
    by apply move_keeps_controls in Hm as (? & _).
  - right. right.
    destruct (grow_session_inv _ _ _ _ Hinv Hq E1 E2) as (_ & _ & Hnew).
    destruct (lengthen_preserves _ _ _ Hsn Hgrid E1)
      as (h' & Hh' & Hs1 & _ & _ & [Hok1 _] & _ & Hfresh & R1).
    rewrite Hh in Hh'. injection Hh' as <-. fold n in Hs1, Hfresh, R1.
    destruct (new_position_Returned _ _ _ E2) as (_ & Hpos & Hs' & _).
    destruct (is_fruit_in_direction_Some s h true Hh Hq) as (c & Hc & Hb).
    symmetry in Hb. apply bool_decide_eq_true in Hb. subst c. fold n in Hc.
    assert (in_bounds n) as Hn.
    { apply (field_read_in_bounds (field s) n Hok). by rewrite Hc. }
    assert (n = m_position s) as Hnf.
    { pose proof (session_inv_fruit_cell s n Hinv Hn Hfresh) as Hx.
      rewrite Hc in Hx. by case_decide. }
    split; [done|]. split; [by rewrite Hs', Hs1|]. split; [done|].
    split.
    + rewrite R1 in Hpos. by repeat case_decide.
    + apply lengthen_keeps_controls in E1 as (Hr1 & _).
      apply new_position_keeps_controls in E2 as (Hr2 & _). congruence.
Qed.

(** The fruit query is answered exactly when the cell ahead is on the
    grid. *)
Lemma query_defined_iff s h :
  session_inv s → snake_t.get_head_position s = Some h →
  is_Some (is_fruit_in_direction s) ↔ in_bounds (ahead (m_direction s) h).
Proof.
  intros (_ & Hok & _) Hh. unfold snake_t.get_head_position in Hh.
  rewrite (is_fruit_in_direction_head s h Hh).
  rewrite <- (field_read_in_bounds (field s) _ Hok).
  destruct (cell_of (field s) (ahead (m_direction s) h)); simpl;
    split; intros [? ?]; by eauto.
Qed.

(** The cell that holds [FRUIT] is the position of the fruit. *)
Lemma session_inv_FRUIT s p :
  session_inv s → cell_of (field s) p = Some FRUIT → p = m_position s.
Proof.
  intros Hinv Hc. pose proof Hinv as ((Hlen & _) & Hok & _ & _ & Hf).
  assert (in_bounds p) as Hp
    by (apply (field_read_in_bounds (field s) p Hok); by rewrite Hc).
  rewrite (Hf p Hp) in Hc. unfold expected in Hc.
  destruct (m_snake_positions s); [simpl in Hlen; lia|].
  by repeat case_decide.
Qed.

Lemma gen_new_position_defined f samples :
  matrix_ok f → Forall (λ x, 0 ≤ x ≤ height - 1) samples →
  fruit_t.gen_new_position samples f = Starved ∨
  ∃ pos, fruit_t.gen_new_position samples f = Returned pos.
Proof.
  intros Hok. remember (length samples) as n eqn:Hn.
  revert samples Hn. induction (lt_wf n) as [n _ IH].
  intros samples Hn Hrange.
  destruct samples as [|i [|j rest]]; [by left..|].
  apply Forall_cons in Hrange as [Hi Hrange].
  apply Forall_cons in Hrange as [Hj Hrange].
  cbn [fruit_t.gen_new_position].
  destruct (proj2 (field_read_in_bounds f (mk_position i j) Hok)) as [c Hc].
  { unfold in_bounds, height, width, globals.field_height,
      globals.field_width in *. simpl. lia. }
  unfold cell_of in Hc. simpl in Hc. rewrite Hc.
  case_bool_decide; [|eauto].
  apply (IH (length rest)); [|done..]. subst n. simpl. lia.
Qed.

Lemma new_position_defined samples s :
  matrix_ok (field s) → Forall (λ x, 0 ≤ x ≤ height - 1) samples →
  fruit_t.new_position samples s = Starved ∨
  ∃ s', fruit_t.new_position samples s = Returned s'.
Proof.
  intros Hok Hrange. unfold fruit_t.new_position.
  destruct (gen_new_position_defined (field s) samples Hok Hrange)
    as [->|[pos G]]; [by left|].
  rewrite G. right.
  pose proof (gen_new_position_Returned _ _ _ G) as Hpos.
  destruct (assign_cell_spec (set_position pos s) pos FRUIT Hok)
    as (f' & E & _).
  { apply (field_read_in_bounds (field s) pos Hok). by rewrite Hpos. }
  unfold fruit_t.update_field. simpl. rewrite E. eauto.
Qed.

(** What a call of [handle_movement] comes to, with samples in the range
    of the distribution: no result when the query reads outside the
    matrix, a return, or a search for a fruit position that outlasts the
    samples. *)
Lemma handle_movement_defined samples s :
  session_inv s → Forall (λ x, 0 ≤ x ≤ height - 1) samples →
  (is_fruit_in_direction s = None ∧ handle_movement samples s = Undefined) ∨
  (is_Some (is_fruit_in_direction s) ∧
   ∃ s', handle_movement samples s = Returned s') ∨
  (is_fruit_in_direction s = Some true ∧ handle_movement samples s = Starved).
Proof.
  intros Hinv Hrange. pose proof Hinv as (Hsn & Hok & _).
  pose proof (session_inv_snake_on_grid _ Hinv) as Hgrid.
  destruct (snake_inv_head _ Hsn) as (h & t & Hs & _).
  pose proof Hsn as (_ & _ & Hb & _). rewrite Hs in Hb.
  rewrite handle_movement_unfold.
  destruct (is_fruit_in_direction s) as [[|]|] eqn:Hq; [| |by left].
  - destruct (fruit_ahead_grows s Hinv Hq) as (s1 & E1 & _).
    destruct (lengthen_preserves _ _ _ Hsn Hgrid E1)
      as (_ & _ & _ & _ & _ & [Hok1 _] & _).
    unfold try_catch, and_then. rewrite E1.
    destruct (new_position_defined samples s1 Hok1 Hrange)
      as [->|[s' ->]]; [by right; right|right; left; eauto].
  - right. left. split; [done|].
    rewrite move_unfold. unfold try_catch, and_then.
    destruct (lengthen_cases (m_direction s) s h t Hs Hok Hb)
      as [[_ ->]|[(_ & _ & ->)|(Hn & _ & f' & -> & Hok' & _)]]; eauto.
    destruct (pop_back_after_lengthen (ahead (m_direction s) h) (h :: t)
                f' s) as (s2 & -> & _); [done|by apply Forall_cons|done|].
    eauto.
Qed.

(** X9.  A due tick of a running session the loop can reach, with
    samples in the range of the distribution, goes one of these ways,
    decided by the cell ahead of the head in the heading the key
    handling leaves.  That cell is outside the grid: the fruit query
    reads outside the matrix and the pass has no defined result.  It is
    part of the snake: the pass returns, the session has ended and
    nothing has moved.  It is [EMPTY]: the pass returns, the head has
    advanced onto it, the last position is given up and the fruit stays.
    It is the fruit: the head advances onto it, no position is given up,
    and either the pass returns with the fruit on a cell that was
    [EMPTY], hence a different one, or the search for that cell is still
    going when the samples are used up.  Where the snake moved, the
    running flag is as the key handling left it. *)
Theorem tick_outcomes (fr : frame) (s : session)
    (Hreach : reachable s) (Hrun : Running s) (Hdue : tick_due fr s)
    (Hrange : Forall (λ x, 0 ≤ x ≤ height - 1) (samples fr)) :
  ∃ h, snake_t.get_head_position s = Some h ∧
    let d := m_direction (handle_key (polled fr s)) in
    (¬ in_bounds (ahead d h) ∧ loop_body fr s = Undefined) ∨
    ((cell_of (field s) (ahead d h) = Some SNAKE_HEAD ∨
      cell_of (field s) (ahead d h) = Some SNAKE_BODY) ∧
     ∃ s', loop_body fr s = Returned s' ∧
       m_direction s' = d ∧ waited_time s' = 0 ∧
       m_game_running s' = false ∧ same_world s s') ∨
    (cell_of (field s) (ahead d h) = Some EMPTY ∧
     ∃ s', loop_body fr s = Returned s' ∧
       m_direction s' = d ∧ waited_time s' = 0 ∧
       m_snake_positions s' = ahead d h :: removelast (m_snake_positions s) ∧
       m_position s' = m_position s ∧
       m_game_running s' = m_game_running (handle_key (polled fr s))) ∨
    (cell_of (field s) (ahead d h) = Some FRUIT ∧
     ahead d h = m_position s ∧
     (loop_body fr s = Starved ∨
      ∃ s', loop_body fr s = Returned s' ∧
        m_direction s' = d ∧ waited_time s' = 0 ∧
        m_snake_positions s' = ahead d h :: m_snake_positions s ∧
        m_position s' ≠ m_position s ∧
        cell_of (field s) (m_position s') = Some EMPTY ∧
        m_game_running s' = m_game_running (handle_key (polled fr s)))).
Proof.
  set (s3 := handle_key (polled fr s)) in *.
  assert (same_world s s3) as Hw.
  { destruct (polled_same_world fr s) as (Hf & Hl & Hp).
    destruct (handle_key_same_world (polled fr s)) as (Hf' & Hl' & Hp').
    unfold same_world. fold s3 in Hf', Hl', Hp'.
    by rewrite Hf', Hl', Hp'. }
  assert (session_inv s3) as Hinv.
  { apply (session_inv_same_world s); [done|]. by apply reachable_session_inv. }
  destruct Hw as (Hf & Hl & Hp).
  pose proof Hinv as (Hsn & _ & _ & Hfs & _).
  destruct (snake_inv_head _ Hsn) as (h & t & Hs & _).
  assert (snake_t.get_head_position s3 = Some h) as Hh
    by (unfold snake_t.get_head_position; by rewrite Hs).
  exists h. split.
  { unfold snake_t.get_head_position. by rewrite <- Hl, Hs. }
  simpl. pose proof (query_defined_iff s3 h Hinv Hh) as Hquery.
  rewrite <- Hf, <- Hl, <- Hp.
  destruct (handle_movement_defined (samples fr) s3 Hinv Hrange)
    as [[Hq E]|[[Hq [s1 E]]|[Hq E]]].
  - left. split.
    + intros Hin. apply Hquery in Hin. rewrite Hq in Hin. by destruct Hin.
    + by apply off_grid_tick_undefined.
  - right.
    assert (loop_body fr s = Returned (set_waited_time 0 s1)) as Epass.
    { rewrite loop_body_tick by done. unfold tick, and_then. fold s3.
      by rewrite E. }
    pose proof (handle_movement_direction _ _ _ E) as Hd.
    destruct (handle_movement_outcomes _ _ _ h Hinv Hh E)
      as [[Hb ->]|[(Hc & Hs' & Hp' & Hr)|(Hn & Hs' & Hp' & Hc & Hr)]].
    + left. split.
      * destruct Hb as [Hb|Hb]; [|done]. by apply Hquery in Hq.
      * eexists. split; [exact Epass|]. by repeat split.
    + right. left. split; [done|]. eexists. split; [exact Epass|]. done.
    + right. right. split; [|split; [done|]].
      * rewrite Hn.
        rewrite (session_inv_fruit_cell s3 (m_position s3) Hinv); [|by
          pose proof Hinv as (_ & _ & ? & _)|done].
        by rewrite decide_True.
      * right. eexists. split; [exact Epass|]. done.
  - right. right. right.
    destruct (is_fruit_in_direction_Some s3 h true Hh Hq) as (c & Hc & Hb).
    symmetry in Hb. apply bool_decide_eq_true in Hb. subst c.
    split; [done|]. split; [by apply session_inv_FRUIT|]. left.
    rewrite loop_body_tick by done. unfold tick, and_then. fold s3.
    by rewrite E.
Qed.

Lemma tick_outcomes_witness :
  reachable grown_session ∧ Running grown_session ∧
  tick_due quiet_frame grown_session ∧
  cell_of (field grown_session) (mk_position 2 4) = Some EMPTY ∧
  ∃ s', loop_body quiet_frame grown_session = Returned s' ∧
        m_snake_positions s' = [mk_position 2 4; mk_position 3 4] ∧
        m_position s' = m_position grown_session ∧ waited_time s' = 0.
Proof.
  assert (Running grown_session) as Hrun by (by vm_compute).
  assert (tick_due quiet_frame grown_session) as Hdue by (by vm_compute).
  split; [apply grown_session_reachable|]. split; [done|]. split; [done|].
  split; [reflexivity|].
  destruct (tick_outcomes quiet_frame grown_session
              grown_session_reachable Hrun Hdue)
    as (h & Hh & [[_ E]|[[Hc _]|[(_ & s' & E & _ & Hw & Hs & Hp & _)
                                |(Hc & _)]]]).
  - unfold height, globals.field_height. repeat constructor; simpl; lia.
  - by vm_compute in E.
  - injection Hh as <-. by destruct Hc as [Hc|Hc]; vm_compute in Hc.
  - injection Hh as <-. exists s'. by repeat split.
  - injection Hh as <-. by vm_compute in Hc.
Defined.

(** ** A full board *)

Lemma gen_new_position_full_board_aux (f : list (list cell_type))
    (samples : list Z) :
  matrix_ok f → (∀ p, cell_of f p ≠ Some EMPTY) →
  Forall (λ x, 0 ≤ x ≤ height - 1) samples →
  fruit_t.gen_new_position samples f = Starved.
Proof.
  intros Hok Hfull Hrange.
  remember (length samples) as n eqn:Hn.
  revert samples Hn Hrange. induction (lt_wf n) as [n _ IH].
  intros samples Hn Hrange.
  destruct samples as [|i [|j rest]]; [done..|].
  apply Forall_cons in Hrange as [Hi Hrange].
  apply Forall_cons in Hrange as [Hj Hrange].
  cbn [fruit_t.gen_new_position].
  destruct (proj2 (field_read_in_bounds f (mk_position i j) Hok)) as [c Hc].
  { unfold in_bounds, height, width, globals.field_height,
      globals.field_width in *. simpl. lia. }
  unfold cell_of in Hc. simpl in Hc. rewrite Hc.
  rewrite bool_decide_eq_true_2.
  - apply (IH (length rest)); [|done..]. subst n. simpl. lia.
  - intros ->. by apply (Hfull (mk_position i j)).
Qed.

(** X10.  On a 10 x 10 matrix without any [EMPTY] cell
    [gen_new_position] never returns a position, whatever samples it is
    given; with samples in the range of the distribution its loop is
    still running when they are used up, however many there are. *)
Theorem gen_new_position_full_board (f : list (list cell_type))
    (samples : list Z)
    (Hok : matrix_ok f)
    (Hfull : ∀ p, cell_of f p ≠ Some EMPTY) :
  (∀ pos, fruit_t.gen_new_position samples f ≠ Returned pos) ∧
  (Forall (λ x, 0 ≤ x ≤ height - 1) samples →
   fruit_t.gen_new_position samples f = Starved).
Proof.
  split.
  - intros pos E. apply gen_new_position_Returned in E. by apply (Hfull pos).
  - intros Hrange. by apply gen_new_position_full_board_aux.
Qed.

Lemma gen_new_position_full_board_witness :
  matrix_ok (replicate 10 (replicate 10 SNAKE_BODY)) ∧
  fruit_t.gen_new_position [0; 0; 9; 9; 3; 7]
    (replicate 10 (replicate 10 SNAKE_BODY)) = Starved.
Proof.
  assert (matrix_ok (replicate 10 (replicate 10 SNAKE_BODY))) as Hok.
  { split; [reflexivity|]. by repeat constructor. }
  assert (∀ p, cell_of (replicate 10 (replicate 10 SNAKE_BODY)) p
               ≠ Some EMPTY) as Hfull.
  { assert (Forall (λ p, cell_of (replicate 10 (replicate 10 SNAKE_BODY)) p
                         ≠ Some EMPTY) all_positions) as Hall.
    { apply (bool_decide_unpack _). by vm_compute. }
    rewrite Forall_forall in Hall. intros p Hp. apply (Hall p); [|done].
    apply elem_of_all_positions, (field_read_in_bounds _ _ Hok).
    by rewrite Hp. }
  split; [done|].
  destruct (gen_new_position_full_board _ [0; 0; 9; 9; 3; 7] Hok Hfull)
    as [_ Hstarved].
  apply Hstarved. unfold height, globals.field_height.
  repeat constructor; lia.
Defined.

(** When the snake holds all positions of the grid, no cell is
    [EMPTY]. *)
Lemma full_snake_no_empty s :
  snake_inv (m_snake_positions s) → snake_on_grid s →
  length (m_snake_positions s) = 100%nat →
  ∀ p, cell_of (field s) p ≠ Some EMPTY.
Proof.
  intros (_ & Hnd & Hb & _) [Hok Hmarked] Hlen p Hp.
  assert (in_bounds p) as Hin.
  { apply (field_read_in_bounds _ _ Hok). by rewrite Hp. }
  assert (m_snake_positions s ≡ₚ all_positions) as Hperm.
  { apply submseteq_length_Permutation.
    - apply NoDup_submseteq; [done|]. intros q Hq.
      apply elem_of_all_positions. rewrite Forall_forall in Hb. by apply Hb.
    - rewrite Hlen. by rewrite length_all_positions. }
  assert (p ∈ m_snake_positions s) as Hps.
  { rewrite Hperm. by apply elem_of_all_positions. }
  apply Hmarked in Hps as [Hps|Hps]; congruence.
Qed.

(** X11.  The game cannot be finished.  In a running session the loop
    can reach in which the snake has 99 positions, a tick that finds the
    fruit ahead makes the snake take the last free cell, and the search
    for a new fruit position then never ends: whatever in-range samples
    are supplied, the pass has not returned when they are used up. *)
Theorem last_fruit_hangs (fr : frame) (s : session)
    (Hreach : reachable s) (Hrun : Running s) (Hdue : tick_due fr s)
    (Hlen : length (m_snake_positions s) = 99%nat)
    (Hfruit : is_fruit_in_direction (handle_key (polled fr s)) = Some true)
    (Hrange : Forall (λ x, 0 ≤ x ≤ height - 1) (samples fr)) :
  loop_body fr s = Starved.
Proof.
  rewrite loop_body_tick by done. unfold tick, and_then.
  set (s3 := handle_key (polled fr s)) in *.
  assert (same_world s s3) as (Hf & Hl & Hp).
  { destruct (polled_same_world fr s) as (Hf & Hl & Hp).
    destruct (handle_key_same_world (polled fr s)) as (Hf' & Hl' & Hp').
    unfold same_world. fold s3 in Hf', Hl', Hp'.
    by rewrite Hf', Hl', Hp'. }
  assert (session_inv s3) as Hinv.
  { apply (session_inv_same_world s); [by repeat split|].
    by apply reachable_session_inv. }
  destruct (fruit_ahead_grows s3 Hinv Hfruit) as (s1 & E1 & Hlen1).
  pose proof Hinv as (Hsn & _).
  destruct (lengthen_preserves _ _ _ Hsn (session_inv_snake_on_grid _ Hinv) E1)
    as (_ & _ & _ & _ & Hsn1 & Hgrid1 & _).
  assert (fruit_t.gen_new_position (samples fr) (field s1) = Starved) as G.
  { apply gen_new_position_full_board_aux; [by destruct Hgrid1| |done].
    apply full_snake_no_empty; [done..|]. rewrite Hlen1, Hl. by rewrite Hlen. }
  rewrite handle_movement_unfold, Hfruit. simpl.
  unfold try_catch, and_then. rewrite E1.
  unfold fruit_t.new_position. by rewrite G.
Qed.

Lemma full_board_session_reachable : reachable full_board_session.
Proof.
  destruct (setup [4; 5]) as [s0| | |] eqn:E0; [|by vm_compute in E0..].
  apply (passes_reachable spiral_frames s0).
  - by apply (reach_setup [4; 5]).
  - vm_compute in E0. injection E0 as <-. vm_compute. reflexivity.
Qed.

Lemma last_fruit_hangs_witness :
  reachable full_board_session ∧ Running full_board_session ∧
  length (m_snake_positions full_board_session) = 99%nat ∧
  snake_t.get_head_position full_board_session = Some (mk_position 9 1) ∧
  m_position full_board_session = mk_position 9 0 ∧
  loop_body (feed SDL_SCANCODE_LEFT 0 0) full_board_session = Starved.
Proof.
  assert (Running full_board_session) as Hrun by (by vm_compute).
  split; [apply full_board_session_reachable|]. split; [done|].
  split; [reflexivity|]. split; [reflexivity|]. split; [reflexivity|].
  apply (last_fruit_hangs (feed SDL_SCANCODE_LEFT 0 0) full_board_session
           full_board_session_reachable Hrun).
  - by vm_compute.
  - reflexivity.
  - vm_compute. reflexivity.
  - unfold height, globals.field_height. repeat constructor; simpl; lia.
Defined.

(** ** The table of held keys *)

Lemma handle_event_released e ev :
  (∀ k, held_keys.is_key_held k ev = false) →
  ∀ k, held_keys.is_key_held k (held_keys.handle_event e ev) = false.
Proof.
  intros Hev k. specialize (Hev k). unfold held_keys.is_key_held in *.
  destruct e as [|sc|sc|]; simpl; try done.
  - rewrite lookup_insert. case_decide; [done|].
    rewrite lookup_insert. by case_decide.
  - rewrite lookup_insert. by case_decide.
Qed.

Lemma poll_events_released pending : ∀ ev,
  (∀ k, held_keys.is_key_held k ev = false) →
  ∀ k, held_keys.is_key_held k (held_keys.poll_events pending ev) = false.
Proof.
  unfold held_keys.poll_events.
  induction pending as [|e pending IH]; intros ev Hev; [done|]. simpl.
  apply IH. by apply handle_event_released.
Qed.

(** X12.  Because the key-down case of [poll_events] runs on into the
    key-up case, a key-down event leaves the table of held keys exactly
    as a key-up event for the same key does, and [is_key_held] answers
    false for every key after any number of polls of any events, from
    the construction of the [event_t] on. *)
Theorem keys_never_held (polls : list (list SDL_Event)) (t_key : Z) :
  held_keys.is_key_held t_key
    (foldl (λ ev pending, held_keys.poll_events pending ev)
       held_keys.initial polls) = false ∧
  ∀ ev scancode,
    held_keys.m_keys_held (held_keys.handle_event (SDL_KEYDOWN scancode) ev)
    = held_keys.m_keys_held (held_keys.handle_event (SDL_KEYUP scancode) ev).
Proof.
  split.
  - assert (∀ ev, (∀ k, held_keys.is_key_held k ev = false) →
              ∀ k, held_keys.is_key_held k
                     (foldl (λ ev pending, held_keys.poll_events pending ev)
                        ev polls) = false) as Hall.
    { induction polls as [|pending polls IH]; intros ev Hev; [done|].
      simpl. apply IH. by apply poll_events_released. }
    apply Hall. intros k. unfold held_keys.is_key_held. simpl.
    by rewrite lookup_empty.
  - intros ev scancode. simpl. apply insert_insert_eq.
Qed.

(** ** What is drawn *)

Lemma filled_app l1 l2 :
  render.filled (l1 ++ l2) = render.filled l1 ++ render.filled l2.
Proof. unfold render.filled. apply omap_app. Qed.

Lemma draw_line_filled win i line : ∀ j,
  length (render.filled (render.draw_line win i j line))
  = (length (filter (λ x, x = SNAKE_HEAD) line)
     + length (filter (λ x, x = SNAKE_BODY) line)
     + length (filter (λ x, x = FRUIT) line))%nat.
Proof.
  induction line as [|c line IH]; intros j; [done|].
  cbn [render.draw_line]. rewrite filled_app, length_app, IH, !filter_cons.
  destruct c; simpl; lia.
Qed.

Lemma draw_lines_filled win f : ∀ i,
  length (render.filled (render.draw_lines win i f))
  = (count_cells SNAKE_HEAD f + count_cells SNAKE_BODY f
     + count_cells FRUIT f)%nat.
Proof.
  unfold count_cells.
  induction f as [|line f IH]; intros i; [done|].
  cbn [render.draw_lines concat].
  rewrite filled_app, length_app, IH, draw_line_filled, !filter_app,
    !length_app.
  lia.
Qed.

(** X13.  [game_field_t::draw] fills one rectangle for every cell that
    holds the head, the body or the fruit, and none for the others; for
    a session the loop can reach that is one rectangle per position of
    the snake plus one for the fruit. *)
Theorem draw_fills_snake_and_fruit (win : window_t.window) (s : session) :
  length (render.filled (render.draw win (field s)))
  = (count_cells SNAKE_HEAD (field s) + count_cells SNAKE_BODY (field s)
     + count_cells FRUIT (field s))%nat ∧
  (reachable s →
   length (render.filled (render.draw win (field s)))
   = S (length (m_snake_positions s))).
Proof.
  assert (length (render.filled (render.draw win (field s)))
          = (count_cells SNAKE_HEAD (field s)
             + count_cells SNAKE_BODY (field s)
             + count_cells FRUIT (field s))%nat) as Hcount.
  { unfold render.draw. rewrite filled_app, length_app.
    by rewrite draw_lines_filled. }
  split; [done|]. intros Hinv%reachable_session_inv. rewrite Hcount.
  destruct (session_inv_counts s Hinv) as (-> & -> & -> & _).
  destruct Hinv as ((Hlen & _) & _). lia.
Qed.

Lemma draw_fills_snake_and_fruit_witness :
  reachable grown_session ∧
  length (render.filled
            (render.draw (window_t.mk_window 900 900) (field grown_session)))
  = 3%nat.
Proof.
  split; [apply grown_session_reachable|].
  apply (proj2 (draw_fills_snake_and_fruit (window_t.mk_window 900 900)
                  grown_session) grown_session_reachable).
Defined.

(** X14.  On a 10 x 10 matrix [game_field_t::draw] issues the clearing
    of the screen and then, position by position in row order, what the
    cell at that position asks for: the counters [i] and [j] of its two
    loops name the position of the cell being drawn. *)
Theorem draw_follows_positions (win : window_t.window)
    (f : list (list cell_type)) (Hok : matrix_ok f) :
  render.draw win f
  = window_t.clear_screen ++ (all_positions ≫= render.paint win f).
Proof.
  destruct Hok as [Hlen Hrows].
  do 10 (destruct f as [|? f]; [done|]). destruct f; [|done].
  repeat match goal with
         | H : Forall _ (_ :: _) |- _ => apply Forall_cons in H as [? H]
         end.
  repeat match goal with
         | H : length ?r = _ |- _ =>
             do 10 (destruct r as [|? r]; [done|]); destruct r; [|done];
             clear H
         end.
  let l := eval vm_compute in all_positions in change all_positions with l.
  cbv -[render.draw_cell app].
  rewrite <- ?app_assoc, ?app_nil_r. reflexivity.
Qed.

Lemma draw_follows_positions_witness :
  matrix_ok snake_only_field ∧
  render.draw (window_t.mk_window 900 900) snake_only_field
  = [SDL_SetRenderDrawColor 0 0 0 255; SDL_RenderClear;
     SDL_SetRenderDrawColor 34 120 16 255;
     SDL_RenderFillRect (mk_rect 360 360 90 90)].
Proof.
  assert (matrix_ok snake_only_field) as Hok.
  { split; [reflexivity|]. by repeat constructor. }
  split; [done|].
  rewrite (draw_follows_positions _ _ Hok). vm_compute. reflexivity.
Defined.

(** X15.  In a window at least as wide and as high as the grid has
    columns and rows, the rectangle [window_t::draw] fills for a position
    of the grid lies inside the window and has a positive size, and the
    rectangles of two different positions share no pixel. *)
Theorem cell_rects_tile (win : window_t.window) (p q : position_t)
    (Hwidth : globals.field_width ≤ window_t.m_width win)
    (Hheight : globals.field_height ≤ window_t.m_height win)
    (Hp : in_bounds p) (Hq : in_bounds q) :
  render.inside_window win (window_t.cell_rect win p) ∧
  0 < rect_w (window_t.cell_rect win p) ∧
  0 < rect_h (window_t.cell_rect win p) ∧
  (p ≠ q →
   render.disjoint_rects (window_t.cell_rect win p)
     (window_t.cell_rect win q)).
Proof.
  unfold in_bounds, height, width, globals.field_height,
    globals.field_width in *.
  destruct win as [W H], p as [i j], q as [i' j']. simpl in *.
  unfold render.inside_window, render.disjoint_rects. simpl.
  cbv [globals.field_height globals.field_width].
  rewrite !Z.quot_div_nonneg by lia.
  assert (10 * (W `div` 10) ≤ W) by (apply Z.mul_div_le; lia).
  assert (10 * (H `div` 10) ≤ H) by (apply Z.mul_div_le; lia).
  assert (0 < W `div` 10) by (apply Z.div_str_pos; lia).
  assert (0 < H `div` 10) by (apply Z.div_str_pos; lia).
  split; [nia|]. split; [done|]. split; [done|].
  intros Hne.
  assert (i ≠ i' ∨ j ≠ j') as [Hi|Hj].
  { destruct (decide (i = i')); [|by left].
    destruct (decide (j = j')); [|by right]. subst. done. }
  - destruct (Z.lt_total i i') as [?|[?|?]]; [|done|]; nia.
  - destruct (Z.lt_total j j') as [?|[?|?]]; [|done|]; nia.
Qed.

Lemma cell_rects_tile_witness :
  render.inside_window (window_t.mk_window 900 900)
    (window_t.cell_rect (window_t.mk_window 900 900) (mk_position 9 9)) ∧
  window_t.cell_rect (window_t.mk_window 900 900) (mk_position 9 9)
  = mk_rect 810 810 90 90.
Proof.
  split; [|reflexivity].
  apply (cell_rects_tile (window_t.mk_window 900 900) (mk_position 9 9)
           (mk_position 0 0)); by vm_compute.
Defined.

(** ** main *)

(** X16.  Whenever [main] returns, it has played one session more than
    there were answers [y] or [Y] in a row from the start: it starts a
    new session after each such answer and returns after the first other
    answer.  It has written one score per session played, in order, each
    the score [game_loop] left for the inputs of that session alone. *)
Theorem main_replays (rounds : list program.round) (scores : list Z)
    (Hmain : program.main rounds = Returned scores) :
  ∃ n, length scores = S n ∧ (n < length rounds)%nat ∧
    (∀ k r, rounds !! k = Some r → (k < n)%nat →
            program.is_yes (program.answer r) = true) ∧
    (∀ r, rounds !! n = Some r →
          program.is_yes (program.answer r) = false) ∧
    (∀ k r, rounds !! k = Some r → (k ≤ n)%nat →
       ∃ game, game_loop (program.fruit_samples r) (program.frames r)
               = Returned game ∧
               scores !! k = Some (get_score game)).
Proof.
  revert scores Hmain.
  induction rounds as [|r rest IH]; intros scores Hmain; [done|].
  cbn [program.main] in Hmain.
  destruct (game_loop (program.fruit_samples r) (program.frames r))
    as [game| | |] eqn:G; try done.
  destruct (program.is_yes (program.answer r)) eqn:Hyes.
  - destruct (program.main rest) as [scores'| | |] eqn:M; try done.
    injection Hmain as <-.
    destruct (IH scores' eq_refl) as (n & Hlen & Hn & Hbefore & Hlast & Hall).
    exists (S n). split; [simpl; lia|]. split; [simpl; lia|].
    split; [|split].
    + intros [|k] r' Hr' Hk; simpl in Hr'.
      * by injection Hr' as <-.
      * apply (Hbefore k); [done|lia].
    + intros r' Hr'. simpl in Hr'. by apply Hlast.
    + intros [|k] r' Hr' Hk; simpl in Hr'.
      * injection Hr' as <-. eauto.
      * apply (Hall k); [done|lia].
  - injection Hmain as <-. exists 0%nat.
    split; [done|]. split; [simpl; lia|]. split; [|split].
    + intros k r' _ Hk. lia.
    + intros r' Hr'. simpl in Hr'. by injection Hr' as <-.
    + intros [|k] r' Hr' Hk; [|lia]. simpl in Hr'.
      injection Hr' as <-. eauto.
Qed.

Lemma main_replays_witness :
  ∃ scores,
    program.main
      [program.mk_round [3; 4] [quiet_frame; escape_frame] 121;
       program.mk_round [7; 7] [escape_frame] 110;
       program.mk_round [3; 4] [] 121]
    = Returned scores ∧
    scores = [2; 1].
Proof.
  eexists. split; [vm_compute; reflexivity|].
  destruct (main_replays
              [program.mk_round [3; 4] [quiet_frame; escape_frame] 121;
               program.mk_round [7; 7] [escape_frame] 110;
               program.mk_round [3; 4] [] 121] [2; 1])
    as (n & Hlen & _); [vm_compute; reflexivity|].
  reflexivity.
Defined.

(** ** The matrix as a picture of the session *)

(** X17.  In every session the loop can reach the matrix is exactly the
    picture of the snake and the fruit: [SNAKE_HEAD] at the first
    position of the snake, [SNAKE_BODY] at each of the others, [FRUIT] at
    the position the fruit reports, and [EMPTY] in every other cell of the
    grid. *)
Theorem matrix_shows_snake_and_fruit (s : session) (Hreach : reachable s) :
  ∃ h t, m_snake_positions s = h :: t ∧
    cell_of (field s) h = Some SNAKE_HEAD ∧
    (∀ p, p ∈ t → cell_of (field s) p = Some SNAKE_BODY) ∧
    cell_of (field s) (m_position s) = Some FRUIT ∧
    (∀ p, in_bounds p → p ∉ m_snake_positions s → p ≠ m_position s →
          cell_of (field s) p = Some EMPTY).
Proof.
  pose proof (reachable_session_inv s Hreach) as Hinv.
  pose proof Hinv as (Hsn & Hok & Hfb & Hfs & Hf).
  destruct (snake_inv_head _ Hsn) as (h & t & Hs & Hh & Hht).
  pose proof Hsn as (_ & _ & Hb & _). rewrite Hs in Hb.
  apply Forall_cons in Hb as [_ Hb]. rewrite Forall_forall in Hb.
  exists h, t. split; [done|]. split; [|split; [|split]].
  - rewrite Hf, Hs by done. simpl. by rewrite decide_True.
  - intros p Hp. rewrite Hf, Hs by (by apply Hb). simpl.
    rewrite decide_False by (by intros ->). by rewrite decide_True.
  - rewrite (session_inv_fruit_cell s _ Hinv Hfb Hfs). by rewrite decide_True.
  - intros p Hp Hps Hpf. rewrite (session_inv_fruit_cell s _ Hinv Hp Hps).
    by rewrite decide_False.
Qed.

Lemma coiled_session_reachable : reachable coiled_session.
Proof.
  destruct (setup [4; 5]) as [s0| | |] eqn:E0; [|by vm_compute in E0..].
  apply (passes_reachable (take 3 spiral_frames) s0).
  - by apply (reach_setup [4; 5]).
  - vm_compute in E0. injection E0 as <-. vm_compute. reflexivity.
Qed.

Lemma matrix_shows_snake_and_fruit_witness :
  reachable coiled_session ∧
  m_snake_positions coiled_session
  = [mk_position 5 4; mk_position 5 5; mk_position 4 5; mk_position 4 4] ∧
  cell_of (field coiled_session) (mk_position 4 4) = Some SNAKE_BODY ∧
  cell_of (field coiled_session) (m_position coiled_session) = Some FRUIT.
Proof.
  split; [apply coiled_session_reachable|]. split; [reflexivity|].
  destruct (matrix_shows_snake_and_fruit coiled_session
              coiled_session_reachable)
    as (h & t & Hs & _ & Hbody & Hfruit & _).
  split; [|done]. injection Hs as <- <-. apply Hbody.
  rewrite !elem_of_cons. auto.
Defined.

(** ** Following one's own tail *)

(** X18.  The cell the tail is about to leave is not free: in a running
    session the loop can reach, a tick whose target cell is any position
    of the snake, the last one included, ends the session and moves
    nothing, because the target is tested before the tail is removed. *)
Theorem own_tail_is_fatal (fr : frame) (s : session) (h : position_t)
    (Hreach : reachable s) (Hrun : Running s) (Hdue : tick_due fr s)
    (Hhead : snake_t.get_head_position s = Some h)
    (Htarget : ahead (m_direction (handle_key (polled fr s))) h
               ∈ m_snake_positions s) :
  ∃ s', loop_body fr s = Returned s' ∧
        m_game_running s' = false ∧ same_world s s'.
Proof.
  set (s3 := handle_key (polled fr s)) in *.
  assert (same_world s s3) as (Hf & Hl & Hp).
  { destruct (polled_same_world fr s) as (Hf & Hl & Hp).
    destruct (handle_key_same_world (polled fr s)) as (Hf' & Hl' & Hp').
    unfold same_world. fold s3 in Hf', Hl', Hp'.
    by rewrite Hf', Hl', Hp'. }
  assert (session_inv s3) as Hinv.
  { apply (session_inv_same_world s); [by repeat split|].
    by apply reachable_session_inv. }
  pose proof Hinv as (Hsn & Hok & _).
  destruct (session_inv_snake_on_grid _ Hinv) as [_ Hmarked].
  destruct (snake_inv_head _ Hsn) as (h' & t & Hs & _).
  unfold snake_t.get_head_position in Hhead. rewrite <- Hl, Hs in Hhead.
  injection Hhead as ->.
  pose proof Hsn as (_ & _ & Hb & _). rewrite Hs in Hb.
  rewrite <- Hl in Htarget. apply Hmarked in Htarget.
  assert (lengthen (m_direction s3) s3 = Thrown s3) as Hblocked.
  { destruct (lengthen_cases (m_direction s3) s3 h t Hs Hok Hb)
      as [[_ E]|[(_ & _ & E)|(_ & (c & Hc & Hcc) & _)]]; [done..|].
    destruct Htarget, Hcc; congruence. }
  exists (set_waited_time 0 (set_game_running false s3)).
  split; [|split; [done|by repeat split]].
  apply blocked_pass; [done| |done]. fold s3.
  rewrite (is_fruit_in_direction_head s3 h) by (by rewrite Hs).
  destruct Htarget as [-> | ->]; by eexists.
Qed.

Lemma own_tail_is_fatal_witness :
  reachable coiled_session ∧ Running coiled_session ∧
  last (m_snake_positions coiled_session) = Some (mk_position 4 4) ∧
  ahead (m_direction (handle_key (polled (feed SDL_SCANCODE_UP 0 0)
                                    coiled_session)))
    (mk_position 5 4) = mk_position 4 4 ∧
  ∃ s', loop_body (feed SDL_SCANCODE_UP 0 0) coiled_session = Returned s' ∧
        m_game_running s' = false ∧ same_world coiled_session s'.
Proof.
  assert (Running coiled_session) as Hrun by (by vm_compute).
  split; [apply coiled_session_reachable|]. split; [done|].
  split; [reflexivity|]. split; [reflexivity|].
  apply (own_tail_is_fatal (feed SDL_SCANCODE_UP 0 0) coiled_session
           (mk_position 5 4) coiled_session_reachable Hrun).
  - by vm_compute.
  - reflexivity.
  - apply list_elem_of_lookup. exists 3%nat. reflexivity.
Defined.

(** ** A refused step ends the game *)

(** X21.  In a due tick of a running session whose fruit query read
    inside the matrix, when the growth or the movement operation throws
    the pass returns the session as the key handling left it, with the
    running flag cleared and the timer reset: matrix, snake and fruit
    are untouched.  The loop makes no further pass, whatever passes are
    still supplied, and the score then assigned is the length the snake
    had when the step was refused. *)
Theorem refused_step_ends_game (fr : frame) (rest : list frame)
    (s : session)
    (Hrun : Running s) (Hdue : tick_due fr s)
    (Hquery : is_Some (is_fruit_in_direction (handle_key (polled fr s))))
    (Hblocked :
       lengthen (m_direction (handle_key (polled fr s)))
         (handle_key (polled fr s))
       = Thrown (handle_key (polled fr s)) ∨
       move (m_direction (handle_key (polled fr s)))
         (handle_key (polled fr s))
       = Thrown (handle_key (polled fr s))) :
  ∃ s',
    s' = set_waited_time 0
           (set_game_running false (handle_key (polled fr s))) ∧
    loop_body fr s = Returned s' ∧
    same_world s s' ∧
    while_loop (fr :: rest) s = Returned s' ∧
    (while_loop (fr :: rest) ;> report_score) s
    = Returned (set_score (snake_t.get_length s) s') ∧
    snake_t.get_length s' = snake_t.get_length s.
Proof.
  apply blocked_either in Hblocked.
  set (s3 := handle_key (polled fr s)) in *.
  destruct (polled_same_world fr s) as (Hf2 & Hl2 & Hp2).
  destruct (handle_key_same_world (polled fr s)) as (Hf3 & Hl3 & Hp3).
  fold s3 in Hf3, Hl3, Hp3.
  pose proof (blocked_pass fr s Hdue Hquery Hblocked) as E. fold s3 in E.
  exists (set_waited_time 0 (set_game_running false s3)).
  assert (while_loop (fr :: rest) s
          = Returned (set_waited_time 0 (set_game_running false s3))) as Ew.
  { destruct Hrun as [Hr Hq]. cbn [while_loop]. rewrite Hr, Hq. simpl.
    unfold and_then. rewrite E. by destruct rest. }
  assert (snake_t.get_length (set_waited_time 0 (set_game_running false s3))
          = snake_t.get_length s) as Hlen.
  { unfold snake_t.get_length. simpl. by rewrite Hl3, Hl2. }
  split; [done|]. split; [done|]. split.
  { unfold same_world. simpl. by rewrite Hf3, Hl3, Hp3. }
  split; [done|]. split; [|done].
  unfold and_then. rewrite Ew. unfold report_score. by rewrite Hlen.
Qed.

Lemma refused_step_ends_game_witness :
  Running coiled_session ∧
  tick_due (feed SDL_SCANCODE_UP 0 0) coiled_session ∧
  length (m_snake_positions coiled_session) = 4%nat ∧
  ∃ s',
    loop_body (feed SDL_SCANCODE_UP 0 0) coiled_session = Returned s' ∧
    m_game_running s' = false ∧
    (while_loop [feed SDL_SCANCODE_UP 0 0; quiet_frame; quiet_frame] ;>
     report_score) coiled_session
    = Returned (set_score 4 s').
Proof.
  assert (Running coiled_session) as Hrun by (by vm_compute).
  assert (tick_due (feed SDL_SCANCODE_UP 0 0) coiled_session) as Hdue
    by (by vm_compute).
  split; [done|]. split; [done|]. split; [reflexivity|].
  destruct (refused_step_ends_game (feed SDL_SCANCODE_UP 0 0)
              [quiet_frame; quiet_frame] coiled_session Hrun Hdue)
    as (s' & -> & E & _ & _ & Es & _).
  - by eexists.
  - left. vm_compute. reflexivity.
  - eexists. split; [exact E|]. split; [done|]. exact Es.
Defined.

(** ** No access out of range apart from the fruit query *)

(** X19.  In a pass of the loop from a session the loop can reach,
    with samples in the range of the distribution, the only access
    outside the matrix is the fruit query of a due tick whose cell ahead
    is off the grid: then, and only then, the pass has no defined
    result.  Every other pass returns, no exception leaves it, and the
    operations of the snake and the fruit read and write inside the
    matrix; the one exception to returning is the search for a new fruit
    position after the snake has eaten, which can outlast the samples. *)
Theorem pass_undefined_only_at_edge (fr : frame) (s : session)
    (h : position_t)
    (Hreach : reachable s)
    (Hrange : Forall (λ x, 0 ≤ x ≤ height - 1) (samples fr))
    (Hhead : snake_t.get_head_position s = Some h) :
  (loop_body fr s = Undefined ↔
   tick_due fr s ∧
   ¬ in_bounds (ahead (m_direction (handle_key (polled fr s))) h)) ∧
  ((∃ s', loop_body fr s = Returned s') ∨
   loop_body fr s = Undefined ∨
   (loop_body fr s = Starved ∧ tick_due fr s ∧
    is_fruit_in_direction (handle_key (polled fr s)) = Some true)).
Proof.
  set (s3 := handle_key (polled fr s)).
  assert (same_world s s3) as (_ & Hl & _).
  { destruct (polled_same_world fr s) as (Hf & Hl & Hp).
    destruct (handle_key_same_world (polled fr s)) as (Hf' & Hl' & Hp').
    unfold same_world. fold s3 in Hf', Hl', Hp'.
    by rewrite Hf', Hl', Hp'. }
  assert (session_inv s3) as Hinv.
  { eapply session_inv_same_world; [apply handle_key_same_world|].
    eapply session_inv_same_world; [apply polled_same_world|].
    by apply reachable_session_inv. }
  assert (snake_t.get_head_position s3 = Some h) as Hh.
  { unfold snake_t.get_head_position in *. by rewrite Hl. }
  pose proof (query_defined_iff s3 h Hinv Hh) as Hquery.
  destruct (decide (waited_time (polled fr s) >= globals.max_wait_time_ms))
    as [Hdue|Hidle].
  - rewrite loop_body_tick by done. unfold tick, and_then. fold s3.
    destruct (handle_movement_defined (samples fr) s3 Hinv Hrange)
      as [[Hq ->]|[[Hq [s1 ->]]|[Hq ->]]].
    + split; [|by right; left]. split; [|done]. intros _.
      split; [done|]. intros Hin. apply Hquery in Hin.
      rewrite Hq in Hin. by destruct Hin.
    + split; [|left; eauto]. split; [done|].
      intros [_ Hout]. by apply Hquery in Hq.
    + split; [|by right; right]. split; [done|].
      intros [_ Hout]. destruct Hout. apply Hquery. by rewrite Hq.
  - unfold loop_body. fold (polled fr s). rewrite decide_False by done.
    split; [|left; eauto]. split; [done|]. by intros [? _].
Qed.

Lemma pass_undefined_only_at_edge_witness :
  reachable coiled_session ∧
  snake_t.get_head_position coiled_session = Some (mk_position 5 4) ∧
  loop_body (feed SDL_SCANCODE_LEFT 9 9) coiled_session ≠ Undefined ∧
  reachable top_row_session ∧
  loop_body quiet_frame top_row_session = Undefined.
Proof.
  assert (Forall (λ x, 0 ≤ x ≤ height - 1) [9; 9]) as Hr1.
  { unfold height, globals.field_height. repeat constructor; simpl; lia. }
  assert (Forall (λ x, 0 ≤ x ≤ height - 1) [7; 7]) as Hr2.
  { unfold height, globals.field_height. repeat constructor; simpl; lia. }
  split; [apply coiled_session_reachable|]. split; [reflexivity|].
  split.
  - intros E.
    apply (pass_undefined_only_at_edge (feed SDL_SCANCODE_LEFT 9 9)
             coiled_session (mk_position 5 4) coiled_session_reachable
             Hr1 eq_refl) in E as [_ Hout].
    apply Hout. by vm_compute.
  - split; [apply top_row_session_reachable|].
    apply (pass_undefined_only_at_edge quiet_frame top_row_session
             (mk_position 0 4) top_row_session_reachable Hr2 eq_refl).
    split; [by vm_compute|]. unfold in_bounds. simpl. lia.
Defined.

(** ** The session a game starts from *)

(** X20.  Whatever samples the fruit draws, when the declarations at the
    top of [game_loop] have run the snake is the single position (4,4),
    the heading is up, the session is running with no quit request, no
    arrow key recorded and the timer at 0, and the fruit lies inside the
    grid on one of the 99 other cells. *)
Theorem game_starts_at_centre (fruit_samples : list Z) (s : session)
    (Hsetup : setup fruit_samples = Returned s) :
  m_snake_positions s = [mk_position 4 4] ∧
  m_direction s = UP ∧ m_game_running s = true ∧ event_t.quit s = false ∧
  arrow_direction (event_t.get_key s) = None ∧ waited_time s = 0 ∧
  in_bounds (m_position s) ∧ m_position s ≠ mk_position 4 4 ∧
  count_cells EMPTY (field s) = 98%nat.
Proof.
  pose proof (setup_session_inv _ _ Hsetup) as Hinv.
  pose proof (setup_positions _ _ Hsetup) as Hs.
  assert (same_controls fresh s) as (Hr & _ & Hd & Hk & Hq & Hw).
  { unfold setup in Hsetup.
    apply and_then_Returned in Hsetup as (s0 & E0 & E1).
    apply new_position_keeps_controls in E1.
    unfold snake_t.construct in E0.
    apply and_then_Returned in E0 as (sa & [= <-] & E0).
    apply snake_update_field_keeps_controls in E0.
    eapply same_controls_trans; [|exact E1].
    eapply same_controls_trans; [|exact E0]. by repeat split. }
  split; [done|]. split; [done|]. split; [done|]. split; [done|].
  split; [unfold event_t.get_key; by rewrite Hk|]. split; [done|].
  pose proof Hinv as (_ & _ & Hfb & Hfs & _).
  split; [done|]. split.
  - intros Heq. apply Hfs. rewrite Hs, Heq. apply list_elem_of_singleton. done.
  - destruct (session_inv_counts s Hinv) as (Hh & Hb & Hf & _ & Htot).
    rewrite Hh, Hb, Hf, Hs in Htot. simpl in Htot.
    unfold height, width, globals.field_height, globals.field_width in Htot.
    lia.
Qed.

Lemma game_starts_at_centre_witness :
  ∃ s, setup [4; 4; 0; 9] = Returned s ∧
       m_snake_positions s = [mk_position 4 4] ∧
       m_position s = mk_position 0 9 ∧
       count_cells EMPTY (field s) = 98%nat.
Proof.
  destruct (setup [4; 4; 0; 9]) as [s| | |] eqn:E; [|by vm_compute in E..].
  exists s. split; [done|].
  destruct (game_starts_at_centre [4; 4; 0; 9] s E)
    as (Hs & _ & _ & _ & _ & _ & _ & _ & Hc).
  split; [done|]. split; [|done].
  vm_compute in E. by injection E as <-.
Defined.
